(** * The 340B policy sync tool: parser, CSV writer and sync loop

    A shallow embedding of the tool [policySyncTool] and of the registry
    [MANUFACTURER_POLICIES] it runs over ([src/mastra/manufacturer-policies.ts]),
    and the properties its specification states about them.

    Conventions of the embedding.
    - A JavaScript string is a [string]; a character is a UTF-16 code unit,
      and the model covers the code units below 256 ([ascii]).
    - A JavaScript number that counts something is a [Z].
    - A thrown JavaScript value is a [JsThrown]; a call that may throw
      returns a [Result].
    - The collaborators the tool calls (HTTP fetch, the PDF decoder, the
      language model, the clock, the failures of the file system) are the
      fields of an [Env]; the files are a finite map from path to content. *)

From Stdlib Require Import Ascii String ZArith Lia Bool.
From stdpp Require Import gmap strings list.

Local Open Scope Z_scope.

(* stdpp keeps [simpl] from unfolding string append; the proofs below
   compute with it. *)
#[local] Arguments String.append !_ _ / : simpl nomatch.

(** ** Characters and the string methods the tool uses *)

Module Js.

Definition LF : ascii := "010"%char.
Definition DQUOTE : ascii := "034"%char.
Definition COMMA : ascii := ","%char.
Definition PIPE : ascii := "|"%char.
Definition DASH : ascii := "-"%char.
Definition COLON : ascii := ":"%char.

(** White space and line terminators of ECMAScript, which is what both
    [String.prototype.trim] and the regular expression class [\s] use:
    TAB, LF, VT, FF, CR, SPACE and NBSP are the ones below 256. *)
Definition isWhiteSpace (c : ascii) : bool :=
  let n := N_of_ascii c in
  ((9 <=? n) && (n <=? 13) || (n =? 32) || (n =? 160))%N.

Fixpoint all (p : ascii -> bool) (s : string) : bool :=
  match s with
  | EmptyString => true
  | String c s' => p c && all p s'
  end.

(** [s.includes(c)] for a one-character needle. *)
Fixpoint includes (s : string) (c : ascii) : bool :=
  match s with
  | EmptyString => false
  | String d s' => Ascii.eqb d c || includes s' c
  end.

(** [s.startsWith(c)] for a one-character prefix. *)
Definition startsWith (s : string) (c : ascii) : bool :=
  match s with
  | EmptyString => false
  | String d _ => Ascii.eqb d c
  end.

Definition isEmpty (s : string) : bool :=
  match s with EmptyString => true | _ => false end.

Fixpoint trimStart (s : string) : string :=
  match s with
  | EmptyString => EmptyString
  | String c s' => if isWhiteSpace c then trimStart s' else s
  end.

Fixpoint trimEnd (s : string) : string :=
  match s with
  | EmptyString => EmptyString
  | String c s' =>
      let r := trimEnd s' in
      if isWhiteSpace c && isEmpty r then EmptyString else String c r
  end.

Definition trim (s : string) : string := trimEnd (trimStart s).

(** [s.split(sep)] for a one-character separator: never an empty list,
    the empty string splits into one empty piece. *)
Fixpoint split (sep : ascii) (s : string) : list string :=
  match s with
  | EmptyString => [EmptyString]
  | String c s' =>
      let r := split sep s' in
      if Ascii.eqb c sep then EmptyString :: r
      else match r with
           | h :: t => String c h :: t
           | [] => [String c EmptyString]
           end
  end.

(** [s.replace(/c/g, r)]: every occurrence of the character [c] becomes [r]. *)
Fixpoint replaceAll (c : ascii) (r : string) (s : string) : string :=
  match s with
  | EmptyString => EmptyString
  | String d s' =>
      if Ascii.eqb d c then r +:+ replaceAll c r s'
      else String d (replaceAll c r s')
  end.

(** [a.join(sep)]: the separator stands between the elements only. *)
Fixpoint join (sep : string) (l : list string) : string :=
  match l with
  | [] => EmptyString
  | [x] => x
  | x :: l' => x +:+ sep +:+ join sep l'
  end.

End Js.

Import Js.

(** ** The table parser and the CSV writer *)

(** The test [line.match(/^\|[\s\-:]+$/)]: the regular expression has no
    flag, so [^] and [$] are the two ends of the line; between them it takes
    one pipe and then one or more characters of the class
    white space, dash, colon. *)
Definition isSeparatorClass (c : ascii) : bool :=
  isWhiteSpace c || Ascii.eqb c DASH || Ascii.eqb c COLON.

Definition matchesSeparator (line : string) : bool :=
  match line with
  | String c rest =>
      Ascii.eqb c PIPE && negb (isEmpty rest) && all isSeparatorClass rest
  | EmptyString => false
  end.

(** The loop body of [parseMarkdownTable] for one line, pushing onto [rows]. *)
Definition parseLine (rows : list (list string)) (line : string)
  : list (list string) :=
  if matchesSeparator line then rows
  else if startsWith line PIPE then
    let cells :=
      filter (fun cell => isEmpty cell = false) (map trim (split PIPE line)) in
    if (0 <? Z.of_nat (length cells)) then rows ++ [cells] else rows
  else rows.

Definition parseMarkdownTable (markdown : string) : list (list string) :=
  let lines :=
    filter (fun line => isEmpty (trim line) = false) (split LF markdown) in
  fold_left parseLine lines [].

(** One cell of [rowsToCSV]. *)
Definition cellToCSV (cell : string) : string :=
  let escaped := replaceAll DQUOTE (String DQUOTE (String DQUOTE EmptyString)) cell in
  if includes escaped COMMA || includes escaped DQUOTE || includes escaped LF
  then String DQUOTE escaped +:+ String DQUOTE EmptyString
  else escaped.

Definition rowsToCSV (rows : list (list string)) : string :=
  join (String LF EmptyString)
    (map (fun row => join (String COMMA EmptyString) (map cellToCSV row)) rows).

Definition lines_of (l : list string) : string := join (String LF EmptyString) l.

(** ** The registry *)

(** [MANUFACTURER_POLICIES], in insertion order, which is the order in which
    [Object.entries] and [Object.keys] enumerate its (non-numeric) keys. *)
Definition MANUFACTURER_POLICIES : list (string * string) :=
  [ ("abbvie", "https://340besp.com/resources/abbvie/policy.pdf");
    ("alkermes", "https://340besp.com/resources/alkermes/policy.pdf");
    ("amgen", "https://340besp.com/resources/amgen/policy.pdf");
    ("astrazeneca", "https://340besp.com/resources/astrazeneca/policy.pdf");
    ("biogen", "https://340besp.com/resources/biogen/policy.pdf");
    ("bristolmyerssquibb", "https://340besp.com/resources/bristolmyerssquibb/policy.pdf");
    ("elililly", "https://340besp.com/resources/elililly/policy.pdf");
    ("gilead", "https://340besp.com/resources/gilead/policy.pdf");
    ("glaxosmithkline", "https://340besp.com/resources/glaxosmithkline/policy.pdf");
    ("janssen", "https://340besp.com/resources/janssen/policy.pdf");
    ("merck", "https://340besp.com/resources/merck/policy.pdf");
    ("novartis", "https://340besp.com/resources/novartis/policy.pdf");
    ("pfizer", "https://340besp.com/resources/pfizer/policy.pdf");
    ("regeneron", "https://340besp.com/resources/regeneron/policy.pdf");
    ("roche", "https://340besp.com/resources/roche/policy.pdf");
    ("sanofi", "https://340besp.com/resources/sanofi/policy.pdf");
    ("teva", "https://340besp.com/resources/teva/policy.pdf") ].

(** ** Records of the tool *)

Module ManufacturerDetail.
Record t := mk {
    id : string;
    updated : bool;
    name : option string;
    rulesCount : option Z;
    error : option string
  }.
Definition set_updated (b : bool) (d : t) : t :=
    mk (id d) b (name d) (rulesCount d) (error d).
Definition set_rulesCount (n : Z) (d : t) : t :=
    mk (id d) (updated d) (name d) (Some n) (error d).
Definition set_error (msg : string) (d : t) : t :=
    mk (id d) (updated d) (name d) (rulesCount d) (Some msg).
End ManufacturerDetail.

Module SyncResult.
Record t := mk {
    totalManufacturers : Z;
    updated : Z;
    unchanged : Z;
    details : list ManufacturerDetail.t
  }.
End SyncResult.

Module LastRunStatus.
Record t := mk {
    last_run : string;
    updates : list string
  }.
End LastRunStatus.

(** ** Thrown values and results *)

(** What a [catch] clause can receive: an [Error] instance with its
    [message], or any other value, kept as what [String(value)] gives. *)
Inductive JsThrown : Type :=
  | ErrorInstance (message : string)
  | OtherValue (asString : string).

(** [error instanceof Error ? error.message : String(error)] *)
Definition errorMessage (error : JsThrown) : string :=
  match error with
  | ErrorInstance message => message
  | OtherValue asString => asString
  end.

Inductive Result (A : Type) : Type :=
  | Ok (a : A)
  | Throw (e : JsThrown).
Arguments Ok {A} a.
Arguments Throw {A} e.

(** ** The collaborators *)

Record Response := {
  ok : bool;
  statusText : string;
  arrayBuffer : Result (list Byte.byte)
}.

Record Env := {
  (** [process.cwd()] *)
  cwd : string;
  (** [fetch(url)] of node-fetch *)
  fetch : string -> Result Response;
  (** [pdfParse(buffer)], reduced to the [text] of what it returns *)
  pdfParse : list Byte.byte -> Result string;
  (** [generateText] at the fixed model and system prompt, as a function
      of the prompt; reduced to the [text] of what it returns *)
  generateText : string -> Result string;
  (** the paths at which [fs.writeFile] fails, with what it throws *)
  writeFileError : string -> option JsThrown;
  (** the paths at which [fs.mkdir] fails, with what it throws *)
  mkdirError : string -> option JsThrown;
  (** [new Date().toISOString()] at the end of the run *)
  now : string
}.

(** The file system: the regular files with their content read as UTF-8
    text, and the directories. A failed write leaves the file as it was. *)
Record FS := {
  files : gmap string string;
  dirs : gset string
}.

Definition with_files (f : gmap string string) (fs : FS) : FS :=
  {| files := f; dirs := dirs fs |}.

(** [path.join(dir, name)] at its call sites: [dir] is a normalised path
    that does not end in a separator, [name] one segment. *)
Definition path_join (dir name : string) : string := dir +:+ "/" +:+ name.

(** ** A state and exception monad for the body of the loop *)

(** How a block of statements ends: normally, by a [throw], or by the
    [continue] of the enclosing loop. State changes made before a [throw]
    or a [continue] stay. *)
Inductive Completion (A : Type) : Type :=
  | Normal (a : A)
  | Thrown (e : JsThrown)
  | Continue.
Arguments Normal {A} a.
Arguments Thrown {A} e.
Arguments Continue {A}.

Section Monad.
Context {S : Type}.

Definition M (A : Type) : Type := S -> S * Completion A.

Definition ret {A} (a : A) : M A := fun s => (s, Normal a).

Definition bind {A B} (m : M A) (k : A -> M B) : M B :=
  fun s =>
    match m s with
    | (s', Normal a) => k a s'
    | (s', Thrown e) => (s', Thrown e)
    | (s', Continue) => (s', Continue)
    end.

Definition continue_ : M unit := fun s => (s, Continue).

Definition modify (f : S -> S) : M unit := fun s => (f s, Normal tt).

(** [await] of a collaborator that does not touch the state. *)
Definition await {A} (r : Result A) : M A :=
  fun s => match r with Ok a => (s, Normal a) | Throw e => (s, Thrown e) end.

(** [try { body } catch (error) { handler }] *)
Definition tryCatch {A} (body : M A) (handler : JsThrown -> M A) : M A :=
  fun s =>
    match body s with
    | (s', Thrown e) => handler e s'
    | other => other
    end.

End Monad.

Notation "'let*' x := m 'in' k" := (bind m (fun x => k))
  (at level 10, x name, m at level 100, k at level 200).
Notation "m ;; k" := (bind m (fun _ => k))
  (at level 100, k at level 200, right associativity).

(** ** The file system calls *)

(** [fs.readFile(path, 'utf-8')]; it fails where there is no file. *)
Definition fs_readFile (path : string) : M (S:=FS) string :=
  fun fs =>
    match files fs !! path with
    | Some content => (fs, Normal content)
    | None =>
        (fs, Thrown (ErrorInstance
           ("ENOENT: no such file or directory, open '" +:+ path +:+ "'")))
    end.

(** [fs.writeFile(path, content, 'utf-8')] *)
Definition fs_writeFile (env : Env) (path content : string) : M (S:=FS) unit :=
  fun fs =>
    match writeFileError env path with
    | Some e => (fs, Thrown e)
    | None => (with_files (<[path := content]> (files fs)) fs, Normal tt)
    end.

(** [fs.access(path)] *)
Definition fs_access (path : string) : M (S:=FS) unit :=
  fun fs =>
    if bool_decide (path ∈ dirs fs) || bool_decide (is_Some (files fs !! path))
    then (fs, Normal tt)
    else (fs, Thrown (ErrorInstance
           ("ENOENT: no such file or directory, access '" +:+ path +:+ "'"))).

(** [fs.mkdir(path, { recursive: true })] *)
Definition fs_mkdir (env : Env) (path : string) : M (S:=FS) unit :=
  fun fs =>
    match mkdirError env path with
    | Some e => (fs, Thrown e)
    | None => ({| files := files fs; dirs := {[path]} ∪ dirs fs |}, Normal tt)
    end.

(** ** The steps of the pipeline *)

Definition downloadPDF (env : Env) (url : string) : Result (list Byte.byte) :=
  match fetch env url with
  | Throw e => Throw e
  | Ok response =>
      if negb (ok response) then
        Throw (ErrorInstance
          ("Failed to download PDF from " +:+ url +:+ ": " +:+ statusText response))
      else arrayBuffer response
  end.

Definition extractTextFromPDF (env : Env) (pdfBuffer : list Byte.byte)
  : Result string :=
  pdfParse env pdfBuffer.

Definition callLLM (env : Env) (policyText : string) : Result string :=
  generateText env
    ("Extract eligibility rules from the following 340B manufacturer policy text:"
       +:+ String LF (String LF policyText)).

Definition ensureOutputDir (env : Env) : M (S:=FS) string :=
  let outputDir := path_join (cwd env) "output" in
  tryCatch (fs_access outputDir) (fun _ => fs_mkdir env outputDir);;
  ret outputDir.

Definition readExistingCSV (filePath : string) : M (S:=FS) (option string) :=
  tryCatch (let* content := fs_readFile filePath in ret (Some content))
           (fun _ => ret None).

Definition writeCSV (env : Env) (filePath content : string) : M (S:=FS) unit :=
  fs_writeFile env filePath content.

(** ** [JSON.stringify(status, null, 2)] *)

Definition hexDigit (n : N) : ascii :=
  if (n <? 10)%N then ascii_of_N (48 + n) else ascii_of_N (87 + n).

(** [QuoteJSONString], one code unit. *)
Definition JSON_escape (c : ascii) : string :=
  let n := N_of_ascii c in
  if (n =? 34)%N then "\" +:+ String DQUOTE EmptyString
  else if (n =? 92)%N then "\\"
  else if (n =? 8)%N then "\b"
  else if (n =? 9)%N then "\t"
  else if (n =? 10)%N then "\n"
  else if (n =? 12)%N then "\f"
  else if (n =? 13)%N then "\r"
  else if (n <? 32)%N then
    "\u00" +:+ String (hexDigit (n / 16)) (String (hexDigit (n mod 16)) EmptyString)
  else String c EmptyString.

Fixpoint JSON_escapeAll (s : string) : string :=
  match s with
  | EmptyString => EmptyString
  | String c s' => JSON_escape c +:+ JSON_escapeAll s'
  end.

Definition JSON_quote (s : string) : string :=
  String DQUOTE (JSON_escapeAll s) +:+ String DQUOTE EmptyString.

(** An array of strings at one level of nesting, indented by two spaces:
    its elements stand at four spaces, its closing bracket at two. *)
Definition JSON_array (l : list string) : string :=
  match l with
  | [] => "[]"
  | _ =>
      "[" +:+ String LF "    "
        +:+ join ("," +:+ String LF "    ") (map JSON_quote l)
        +:+ String LF "  ]"
  end.

Definition JSON_stringify (status : LastRunStatus.t) : string :=
  "{" +:+ String LF "  " +:+ JSON_quote "last_run" +:+ ": "
      +:+ JSON_quote (LastRunStatus.last_run status)
      +:+ "," +:+ String LF "  " +:+ JSON_quote "updates" +:+ ": "
      +:+ JSON_array (LastRunStatus.updates status)
      +:+ String LF "}".

Definition statusPath (outputDir : string) : string :=
  path_join outputDir "last_run_status.json".

Definition writeLastRunStatus (env : Env) (outputDir : string)
  (status : LastRunStatus.t) : M (S:=FS) unit :=
  fs_writeFile env (statusPath outputDir) (JSON_stringify status).

(** ** The sync loop *)

(** The variables of [execute] that live across the loop. *)
Record Acc := {
  disk : FS;
  details : list ManufacturerDetail.t;
  updatedCount : Z;
  unchangedCount : Z;
  updatedManufacturers : list string
}.

(** One iteration also has its [detail] object, which it mutates. *)
Record Frame := {
  vars : Acc;
  detail : ManufacturerDetail.t
}.

Definition on_vars (f : Acc -> Acc) : M (S:=Frame) unit :=
  modify (fun fr => {| vars := f (vars fr); detail := detail fr |}).

(** [detail.field = value] *)
Definition detail_set (f : ManufacturerDetail.t -> ManufacturerDetail.t)
  : M (S:=Frame) unit :=
  modify (fun fr => {| vars := vars fr; detail := f (detail fr) |}).

(** [details.push(detail)] *)
Definition details_push : M (S:=Frame) unit :=
  modify (fun fr =>
    let a := vars fr in
    {| vars := {| disk := disk a; details := details a ++ [detail fr];
                  updatedCount := updatedCount a;
                  unchangedCount := unchangedCount a;
                  updatedManufacturers := updatedManufacturers a |};
       detail := detail fr |}).

(** [updatedCount++] *)
Definition updatedCount_incr : M (S:=Frame) unit :=
  on_vars (fun a =>
    {| disk := disk a; details := details a;
       updatedCount := updatedCount a + 1;
       unchangedCount := unchangedCount a;
       updatedManufacturers := updatedManufacturers a |}).

(** [unchangedCount++] *)
Definition unchangedCount_incr : M (S:=Frame) unit :=
  on_vars (fun a =>
    {| disk := disk a; details := details a;
       updatedCount := updatedCount a;
       unchangedCount := unchangedCount a + 1;
       updatedManufacturers := updatedManufacturers a |}).

(** [updatedManufacturers.push(key)] *)
Definition updatedManufacturers_push (key : string) : M (S:=Frame) unit :=
  on_vars (fun a =>
    {| disk := disk a; details := details a;
       updatedCount := updatedCount a;
       unchangedCount := unchangedCount a;
       updatedManufacturers := updatedManufacturers a ++ [key] |}).

Definition with_disk (fs : FS) (a : Acc) : Acc :=
  {| disk := fs; details := details a;
     updatedCount := updatedCount a;
     unchangedCount := unchangedCount a;
     updatedManufacturers := updatedManufacturers a |}.

(** A file system call made from inside an iteration. *)
Definition onDisk {A} (m : M (S:=FS) A) : M (S:=Frame) A :=
  fun fr =>
    let '(fs', c) := m (disk (vars fr)) in
    ({| vars := with_disk fs' (vars fr); detail := detail fr |}, c).

Definition csvPath (outputDir manufacturerKey : string) : string :=
  path_join outputDir (manufacturerKey +:+ "_340b_rules.csv").

(** [existingCSV === null || existingCSV !== csvContent] *)
Definition differs (existingCSV : option string) (csvContent : string) : bool :=
  match existingCSV with
  | None => true
  | Some existing => negb (String.eqb existing csvContent)
  end.

Definition NO_ROWS : string := "No rows extracted from markdown table".

(** The block under [try]. *)
Definition tryBlock (env : Env) (outputDir manufacturerKey pdfUrl : string)
  : M (S:=Frame) unit :=
  let* pdfBuffer := await (downloadPDF env pdfUrl) in
  let* policyText := await (extractTextFromPDF env pdfBuffer) in
  let* markdownTable := await (callLLM env policyText) in
  let rows := parseMarkdownTable markdownTable in
  if Z.of_nat (length rows) =? 0 then
    detail_set (ManufacturerDetail.set_error NO_ROWS);;
    details_push;;
    continue_
  else
    detail_set (ManufacturerDetail.set_rulesCount (Z.of_nat (length rows) - 1));;
    let csvContent := rowsToCSV rows in
    let* existingCSV := onDisk (readExistingCSV (csvPath outputDir manufacturerKey)) in
    if differs existingCSV csvContent then
      onDisk (writeCSV env (csvPath outputDir manufacturerKey) csvContent);;
      detail_set (ManufacturerDetail.set_updated true);;
      updatedCount_incr;;
      updatedManufacturers_push manufacturerKey
    else
      detail_set (ManufacturerDetail.set_updated false);;
      unchangedCount_incr.

(** The block under [catch (error)]. *)
Definition catchBlock (error : JsThrown) : M (S:=Frame) unit :=
  detail_set (ManufacturerDetail.set_error (errorMessage error));;
  unchangedCount_incr.

(** The body of the [for ... of] loop for one entry of the registry. *)
Definition loopBody (env : Env) (outputDir : string) (entry : string * string)
  : M (S:=Acc) unit :=
  fun a =>
    let '(manufacturerKey, pdfUrl) := entry in
    let detail0 :=
      ManufacturerDetail.mk manufacturerKey false None None None in
    let '(fr, c) :=
      (tryCatch (tryBlock env outputDir manufacturerKey pdfUrl) catchBlock;;
       details_push) {| vars := a; detail := detail0 |} in
    (vars fr, c).

(** [for (const entry of entries) body]: a [continue] goes on with the
    next entry, a [throw] leaves the loop. *)
Fixpoint forOf {S E} (body : E -> M (S:=S) unit) (entries : list E)
  : M (S:=S) unit :=
  fun s =>
    match entries with
    | [] => (s, Normal tt)
    | entry :: rest =>
        match body entry s with
        | (s', Thrown e) => (s', Thrown e)
        | (s', _) => forOf body rest s'
        end
    end.

Definition initialAcc (fs : FS) : Acc :=
  {| disk := fs; details := []; updatedCount := 0; unchangedCount := 0;
     updatedManufacturers := [] |}.

(** The loop of [execute], started on the file system [fs]. *)
Definition syncLoop (env : Env) (outputDir : string) (fs : FS)
  : Acc * Completion unit :=
  forOf (loopBody env outputDir) MANUFACTURER_POLICIES (initialAcc fs).

(** [policySyncTool.execute] *)
Definition execute (env : Env) : M (S:=FS) SyncResult.t :=
  let* outputDir := ensureOutputDir env in
  fun fs =>
    match syncLoop env outputDir fs with
    | (a, Thrown e) => (disk a, Thrown e)
    | (a, _) =>
        (let lastRunStatus :=
           LastRunStatus.mk (now env) (updatedManufacturers a) in
         writeLastRunStatus env outputDir lastRunStatus;;
         ret (SyncResult.mk
                (Z.of_nat (length (map fst MANUFACTURER_POLICIES)))
                (updatedCount a) (unchangedCount a) (details a)))
          (disk a)
    end.

(** ** What one iteration does, case by case *)

(** Fetch, extract, generate and parse: the part of an iteration that
    does not look at the loop variables. *)
Definition pipeline (env : Env) (pdfUrl : string) : Result (list (list string)) :=
  match downloadPDF env pdfUrl with
  | Throw e => Throw e
  | Ok pdfBuffer =>
      match extractTextFromPDF env pdfBuffer with
      | Throw e => Throw e
      | Ok policyText =>
          match callLLM env policyText with
          | Throw e => Throw e
          | Ok markdownTable => Ok (parseMarkdownTable markdownTable)
          end
      end
  end.

(** The pipeline throws [e] at the fetch, the extraction or the generation. *)
Definition throwsAt (env : Env) (pdfUrl : string) (e : JsThrown) : Prop :=
  downloadPDF env pdfUrl = Throw e
  \/ (exists pdfBuffer,
        downloadPDF env pdfUrl = Ok pdfBuffer
        /\ extractTextFromPDF env pdfBuffer = Throw e)
  \/ (exists pdfBuffer policyText,
        downloadPDF env pdfUrl = Ok pdfBuffer
        /\ extractTextFromPDF env pdfBuffer = Ok policyText
        /\ callLLM env policyText = Throw e).

Definition push_detail (d : ManufacturerDetail.t) (a : Acc) : Acc :=
  {| disk := disk a; details := details a ++ [d];
     updatedCount := updatedCount a; unchangedCount := unchangedCount a;
     updatedManufacturers := updatedManufacturers a |}.

Definition count_unchanged (a : Acc) : Acc :=
  {| disk := disk a; details := details a;
     updatedCount := updatedCount a; unchangedCount := unchangedCount a + 1;
     updatedManufacturers := updatedManufacturers a |}.

Definition count_updated (key : string) (a : Acc) : Acc :=
  {| disk := disk a; details := details a;
     updatedCount := updatedCount a + 1; unchangedCount := unchangedCount a;
     updatedManufacturers := updatedManufacturers a ++ [key] |}.

(** The loop variables after the iteration for [(key, url)], in direct
    style; [loopBody_step] shows that this is what [loopBody] computes. *)
Definition step (env : Env) (outputDir : string) (a : Acc)
  (entry : string * string) : Acc :=
  let '(key, url) := entry in
  let d := ManufacturerDetail.mk key in
  match pipeline env url with
  | Throw e =>
      push_detail (d false None None (Some (errorMessage e))) (count_unchanged a)
  | Ok rows =>
      if Z.of_nat (length rows) =? 0 then
        push_detail (d false None None (Some NO_ROWS)) a
      else
        let n := Some (Z.of_nat (length rows) - 1) in
        let path := csvPath outputDir key in
        if differs (files (disk a) !! path) (rowsToCSV rows) then
          match writeFileError env path with
          | Some e =>
              push_detail (d false None n (Some (errorMessage e)))
                (count_unchanged a)
          | None =>
              push_detail (d true None n None)
                (count_updated key
                   (with_disk
                      (with_files (<[path := rowsToCSV rows]> (files (disk a)))
                         (disk a)) a))
          end
        else push_detail (d false None n None) (count_unchanged a)
  end.

(** The parse of this manufacturer's table has no row. *)
Definition isEmptyTable (env : Env) (pdfUrl : string) : bool :=
  match pipeline env pdfUrl with
  | Ok rows => Z.of_nat (length rows) =? 0
  | Throw _ => false
  end.

Definition emptyTables (env : Env) (entries : list (string * string)) : Z :=
  Z.of_nat (length (List.filter (fun e => isEmptyTable env e.2) entries)).

(** The ids of the details marked as updated, in order. *)
Definition updatedIds (ds : list ManufacturerDetail.t) : list string :=
  map ManufacturerDetail.id
    (filter (fun d => ManufacturerDetail.updated d = true) ds).

(** The three ways in which the loop variables agree with each other. *)
Record coherent (a : Acc) : Prop := {
  coh_ids : updatedManufacturers a = updatedIds (details a);
  coh_count : updatedCount a = Z.of_nat (length (updatedManufacturers a));
  coh_error :
    Forall (fun d => ManufacturerDetail.updated d = true ->
                     ManufacturerDetail.error d = None) (details a)
}.

(** An entry is settled on the files [f] when its iteration would neither
    write nor count an update. *)
Definition settled (env : Env) (outputDir : string) (f : gmap string string)
  (entry : string * string) : Prop :=
  match pipeline env entry.2 with
  | Throw _ => True
  | Ok rows =>
      Z.of_nat (length rows) = 0
      \/ differs (f !! csvPath outputDir entry.1) (rowsToCSV rows) = false
      \/ writeFileError env (csvPath outputDir entry.1) <> None
  end.

(** ** The files across the loop, and a whole run *)

(** The content of a manufacturer's snapshot after its iteration, from the
    content [old] before it. *)
Definition fileAfter (env : Env) (outputDir : string) (old : option string)
  (entry : string * string) : option string :=
  match pipeline env entry.2 with
  | Throw _ => old
  | Ok rows =>
      if Z.of_nat (length rows) =? 0 then old
      else if differs old (rowsToCSV rows) then
        match writeFileError env (csvPath outputDir entry.1) with
        | Some _ => old
        | None => Some (rowsToCSV rows)
        end
      else old
  end.

Definition outputDirOf (env : Env) : string := path_join (cwd env) "output".

(** [fs.access(outputDir)] succeeds. *)
Definition dirExists (env : Env) (fs : FS) : bool :=
  bool_decide (outputDirOf env ∈ dirs fs)
  || bool_decide (is_Some (files fs !! outputDirOf env)).

Definition noError (o : option JsThrown) : bool :=
  match o with None => true | Some _ => false end.

(** The run reaches its [return]: the output directory is there or can be
    made, and the status file can be written. *)
Definition canRun (env : Env) (fs : FS) : bool :=
  (dirExists env fs || noError (mkdirError env (outputDirOf env)))
  && noError (writeFileError env (statusPath (outputDirOf env))).

(** The loop variables when the loop over the registry ends. *)
Definition loopEnd (env : Env) (fs : FS) : Acc :=
  fold_left (step env (outputDirOf env)) MANUFACTURER_POLICIES (initialAcc fs).

Definition statusOf (env : Env) (a : Acc) : string :=
  JSON_stringify (LastRunStatus.mk (now env) (updatedManufacturers a)).

Definition resultOf (a : Acc) : SyncResult.t :=
  SyncResult.mk (Z.of_nat (length (map fst MANUFACTURER_POLICIES)))
    (updatedCount a) (unchangedCount a) (details a).

(** The same collaborators at another time of day. *)
Definition with_now (t : string) (env : Env) : Env :=
  {| cwd := cwd env; fetch := fetch env; pdfParse := pdfParse env;
     generateText := generateText env; writeFileError := writeFileError env;
     mkdirError := mkdirError env; now := t |}.

(** ** A sample environment *)

(** Collaborators under which the first five manufacturers of the registry
    end their iteration in five different ways, and an empty disk. *)
Definition okResponse (body : list Byte.byte) : Response :=
  {| ok := true; statusText := "OK"; arrayBuffer := Ok body |}.

Definition sampleFetch (url : string) : Result Response :=
  if String.eqb url "https://340besp.com/resources/abbvie/policy.pdf"
  then Ok (okResponse [Byte.x01])
  else if String.eqb url "https://340besp.com/resources/alkermes/policy.pdf"
  then Ok {| ok := false; statusText := "Not Found"; arrayBuffer := Ok [] |}
  else if String.eqb url "https://340besp.com/resources/amgen/policy.pdf"
  then Ok (okResponse [Byte.x02])
  else if String.eqb url "https://340besp.com/resources/astrazeneca/policy.pdf"
  then Ok (okResponse [Byte.x03])
  else if String.eqb url "https://340besp.com/resources/biogen/policy.pdf"
  then Ok (okResponse [Byte.x04])
  else Throw (ErrorInstance "request failed").

Definition samplePdfParse (buffer : list Byte.byte) : Result string :=
  match buffer with
  | [Byte.x01] => Ok "one"
  | [Byte.x02] => Throw (ErrorInstance "")
  | [Byte.x03] => Ok "three"
  | [Byte.x04] => Ok "four"
  | _ => Throw (OtherValue "not a PDF")
  end.

Definition sampleTable : string :=
  lines_of ["| rule_id | condition_summary |"; "|---|---|"; "| R1 | a, b |"].

Definition sampleGenerateText (prompt : string) : Result string :=
  if String.eqb prompt
       ("Extract eligibility rules from the following 340B manufacturer policy text:"
          +:+ String LF (String LF "one"))
  then Ok sampleTable
  else if String.eqb prompt
       ("Extract eligibility rules from the following 340B manufacturer policy text:"
          +:+ String LF (String LF "three"))
  then Ok "There is no table in this policy."
  else Throw (ErrorInstance "rate limit exceeded").

Definition sampleEnv : Env :=
  {| cwd := "/app"; fetch := sampleFetch; pdfParse := samplePdfParse;
     generateText := sampleGenerateText;
     writeFileError := fun _ => None; mkdirError := fun _ => None;
     now := "2025-01-01T00:00:00.000Z" |}.

Definition emptyDisk : FS := {| files := ∅; dirs := ∅ |}.

(** ** The CSV writer in the words of the specification *)

(** "Double internal quote characters." *)
Fixpoint doubleQuotes (cell : string) : string :=
  match cell with
  | EmptyString => EmptyString
  | String c rest =>
      if Ascii.eqb c DQUOTE
      then String DQUOTE (String DQUOTE (doubleQuotes rest))
      else String c (doubleQuotes rest)
  end.

(** "Contains a comma, a quote, or a newline." *)
Definition isSpecial (c : ascii) : bool :=
  Ascii.eqb c COMMA || Ascii.eqb c DQUOTE || Ascii.eqb c LF.

Fixpoint hasSpecial (s : string) : bool :=
  match s with
  | EmptyString => false
  | String c rest => isSpecial c || hasSpecial rest
  end.

Definition specCell (cell : string) : string :=
  let escaped := doubleQuotes cell in
  if hasSpecial escaped
  then String DQUOTE (escaped +:+ String DQUOTE EmptyString)
  else escaped.

(** "Join with [sep]": the first piece, then each further piece behind a
    separator; nothing behind the last piece. *)
Definition joined (sep : ascii) (pieces : list string) : string :=
  match pieces with
  | [] => EmptyString
  | first :: others =>
      fold_left (fun text piece => text +:+ String sep piece) others first
  end.

Definition specCSV (rows : list (list string)) : string :=
  joined LF (map (fun row => joined COMMA (map specCell row)) rows).

(** ** A CSV reader *)

(** The reader of the round trip: it splits the text on commas and newlines
    and respects the quoting rule, so a quoted field may hold commas,
    newlines and doubled quotes. It is not part of the tool. *)
Inductive CsvMode : Type :=
  | FieldStart
  | InUnquoted
  | InQuoted
  | AfterQuote.

Definition snoc (field : string) (c : ascii) : string :=
  field +:+ String c EmptyString.

(** [readFrom mode rows row field text]: [rows] are the finished rows, [row]
    the finished fields of the current row, [field] the characters of the
    current field. *)
Fixpoint readFrom (mode : CsvMode) (rows : list (list string))
  (row : list string) (field : string) (text : string) : list (list string) :=
  match text with
  | EmptyString => rows ++ [row ++ [field]]
  | String c rest =>
      let unquoted :=
        if Ascii.eqb c COMMA then
          readFrom FieldStart rows (row ++ [field]) EmptyString rest
        else if Ascii.eqb c LF then
          readFrom FieldStart (rows ++ [row ++ [field]]) [] EmptyString rest
        else readFrom InUnquoted rows row (snoc field c) rest in
      match mode with
      | FieldStart =>
          if Ascii.eqb c DQUOTE then readFrom InQuoted rows row EmptyString rest
          else unquoted
      | InUnquoted => unquoted
      | InQuoted =>
          if Ascii.eqb c DQUOTE then readFrom AfterQuote rows row field rest
          else readFrom InQuoted rows row (snoc field c) rest
      | AfterQuote =>
          if Ascii.eqb c DQUOTE then readFrom InQuoted rows row (snoc field c) rest
          else unquoted
      end
  end.

Definition readCSV (text : string) : list (list string) :=
  readFrom FieldStart [] [] EmptyString text.

(** The text that follows a field: nothing, or a comma, or a newline. *)
Definition atDelimiter (rest : string) : bool :=
  match rest with
  | EmptyString => true
  | String c _ => Ascii.eqb c COMMA || Ascii.eqb c LF
  end.

(** One row as [rowsToCSV] writes it. *)
Definition rowText (row : list string) : string :=
  join (String COMMA EmptyString) (map cellToCSV row).

Definition sampleRows : list (list string) :=
  [ ["rule_id"; "note, with comma"];
    [String DQUOTE ("quoted" +:+ String DQUOTE EmptyString);
     "two" +:+ String LF "lines"; ""] ].

(** * Further definitions *)

(** ** What a parsed cell looks like *)

(** A cell as the table parser leaves it: not empty, with no white space at
    either end, and with no pipe and no newline inside. *)
Definition cleanCell (cell : string) : Prop :=
  cell <> EmptyString
  /\ trim cell = cell
  /\ includes cell PIPE = false
  /\ includes cell LF = false.

(** ** The part of [execute] behind [ensureOutputDir] *)

(** The loop, the status file and the result, for the output directory
    [outputDir]; [execute_executeIn] shows that [execute] is
    [ensureOutputDir] followed by this. *)
Definition executeIn (env : Env) (outputDir : string) : M (S:=FS) SyncResult.t :=
  fun fs =>
    match syncLoop env outputDir fs with
    | (a, Thrown e) => (disk a, Thrown e)
    | (a, _) =>
        (writeLastRunStatus env outputDir
           (LastRunStatus.mk (now env) (updatedManufacturers a));;
         ret (SyncResult.mk
                (Z.of_nat (length (map fst MANUFACTURER_POLICIES)))
                (updatedCount a) (unchangedCount a) (details a)))
          (disk a)
    end.

(** The prompt [callLLM] sends for a policy text. *)
Definition promptFor (policyText : string) : string :=
  "Extract eligibility rules from the following 340B manufacturer policy text:"
    +:+ String LF (String LF policyText).

(** [rows.length - 1], where the loop assigns it to [detail.rulesCount]:
    only behind the test for zero rows. *)
Definition rulesCountOf (parsed : Result (list (list string))) : option Z :=
  match parsed with
  | Ok (row :: rows) => Some (Z.of_nat (length (row :: rows)) - 1)
  | _ => None
  end.


(** The disk a run under [sampleEnv] leaves behind. *)
Definition sampleDisk : FS := (execute sampleEnv emptyDisk).1.

(** ** The weather conditions *)

(** [found || "Unknown"] on a table of strings: the entry, unless there is
    none or it is the empty string. *)
Definition orUnknown (found : option string) : string :=
  match found with
  | Some s => if isEmpty s then "Unknown" else s
  | None => "Unknown"
  end.

(** The two tables of weather codes, of the weather workflow and of the
    weather tool, and the two functions [getWeatherCondition] that look a
    code up. A code is an integer, as the forecast service reports it. *)
Module WeatherWorkflow.
Definition conditions : gmap Z string :=
  list_to_map
    [ (0, "Clear sky"); (1, "Mainly clear"); (2, "Partly cloudy");
      (3, "Overcast"); (45, "Foggy"); (48, "Depositing rime fog");
      (51, "Light drizzle"); (53, "Moderate drizzle"); (55, "Dense drizzle");
      (61, "Slight rain"); (63, "Moderate rain"); (65, "Heavy rain");
      (71, "Slight snow fall"); (73, "Moderate snow fall");
      (75, "Heavy snow fall"); (95, "Thunderstorm") ].

Definition getWeatherCondition (code : Z) : string :=
  orUnknown (conditions !! code).
End WeatherWorkflow.

Module WeatherTool.
Definition conditions : gmap Z string :=
  list_to_map
    [ (0, "Clear sky"); (1, "Mainly clear"); (2, "Partly cloudy");
      (3, "Overcast"); (45, "Foggy"); (48, "Depositing rime fog");
      (51, "Light drizzle"); (53, "Moderate drizzle"); (55, "Dense drizzle");
      (56, "Light freezing drizzle"); (57, "Dense freezing drizzle");
      (61, "Slight rain"); (63, "Moderate rain"); (65, "Heavy rain");
      (66, "Light freezing rain"); (67, "Heavy freezing rain");
      (71, "Slight snow fall"); (73, "Moderate snow fall");
      (75, "Heavy snow fall"); (77, "Snow grains");
      (80, "Slight rain showers"); (81, "Moderate rain showers");
      (82, "Violent rain showers"); (85, "Slight snow showers");
      (86, "Heavy snow showers"); (95, "Thunderstorm");
      (96, "Thunderstorm with slight hail");
      (99, "Thunderstorm with heavy hail") ].

Definition getWeatherCondition (code : Z) : string :=
  orUnknown (conditions !! code).
End WeatherTool.

(** The codes only the tool knows. *)
Definition toolOnlyCodes : list Z :=
  [56; 57; 66; 67; 77; 80; 81; 82; 85; 86; 96; 99].

(** What the two functions have to do with each other at one code, as a
    test. *)
Definition conditionsAgreeAt (code : Z) : bool :=
  let w := WeatherWorkflow.getWeatherCondition code in
  let t := WeatherTool.getWeatherCondition code in
  (String.eqb w "Unknown" || String.eqb t w)
  && Bool.eqb (negb (String.eqb t w)) (bool_decide (code ∈ toolOnlyCodes))
  && negb (isEmpty w) && negb (isEmpty t).


(** ** Tables in pipe form *)

(** A row the way the prompt asks the model to write it,
    [| c1 | c2 | ... |], and a table of such rows, one per line. It is the
    text the table parser is meant to read, not code of the tool. *)
Definition padded (cell : string) : string := " " +:+ cell +:+ " ".

Fixpoint pipeCells (cells : list string) : string :=
  match cells with
  | [] => EmptyString
  | cell :: cells' => padded cell +:+ String PIPE (pipeCells cells')
  end.

Definition pipeRow (cells : list string) : string :=
  String PIPE (pipeCells cells).

Definition pipeTable (rows : list (list string)) : string :=
  lines_of (map pipeRow rows).

(** * Properties *)

(** ** The parser on a table *)

Example parse_plain :
  parseMarkdownTable (lines_of ["| a | b |"; "|---"; ""; "| 1 | 2 |"; "x | y"])
  = [["a"; "b"]; ["1"; "2"]].
Proof. vm_compute. reflexivity. Qed.

(** ** The iteration in direct style *)

Lemma pipeline_throws (env : Env) (url : string) (e : JsThrown) :
  throwsAt env url e <-> pipeline env url = Throw e.
Proof.
  unfold throwsAt, pipeline. split.
  - intros [H | [(b & Hb & H) | (b & t & Hb & Ht & H)]].
    + now rewrite H.
    + now rewrite Hb, H.
    + now rewrite Hb, Ht, H.
  - destruct (downloadPDF env url) as [b | e0] eqn:Hd.
    + destruct (extractTextFromPDF env b) as [t | e1] eqn:Hx.
      * destruct (callLLM env t) as [md | e2] eqn:Hg; [discriminate |].
        intros [= ->]. right; right. now exists b, t.
      * intros [= ->]. right; left. now exists b.
    + intros [= ->]. now left.
Qed.

Lemma loopBody_step (env : Env) (outputDir : string) (entry : string * string)
  (a : Acc) :
  loopBody env outputDir entry a
  = (step env outputDir a entry,
     if isEmptyTable env entry.2 then Continue else Normal tt).
Proof.
  destruct entry as [key url]. destruct a as [fs ds uc nc ups].
  unfold loopBody, step, isEmptyTable, pipeline, tryBlock, tryCatch, bind, await;
    simpl.
  destruct (downloadPDF env url) as [b | e]; simpl; [| reflexivity].
  destruct (extractTextFromPDF env b) as [t | e]; simpl; [| reflexivity].
  destruct (callLLM env t) as [md | e]; simpl; [| reflexivity].
  destruct (Z.of_nat (length (parseMarkdownTable md)) =? 0); simpl;
    [reflexivity |].
  unfold onDisk, readExistingCSV, tryCatch, bind, fs_readFile, writeCSV,
    fs_writeFile; simpl.
  destruct (files fs !! csvPath outputDir key) as [old |]; simpl.
  - destruct (negb (old =? rowsToCSV (parseMarkdownTable md))%string); simpl;
      [| destruct fs; reflexivity].
    destruct (writeFileError env (csvPath outputDir key)); reflexivity.
  - destruct (writeFileError env (csvPath outputDir key)); simpl;
      try (destruct fs); reflexivity.
Qed.

Lemma path_join_inj (dir x y : string) : path_join dir x = path_join dir y -> x = y.
Proof.
  unfold path_join. intros H. apply String.app_inj in H. now injection H.
Qed.

Lemma append_length (s t : string) :
  String.length (s +:+ t) = (String.length s + String.length t)%nat.
Proof. induction s as [| c s IH]; simpl; [reflexivity | now rewrite IH]. Qed.

Lemma append_inj_l (s t u : string) : s +:+ u = t +:+ u -> s = t.
Proof.
  revert t. induction s as [| c s IH]; intros [| d t] H; simpl in H.
  - reflexivity.
  - apply (f_equal String.length) in H. simpl in H.
    rewrite (append_length t u) in H. lia.
  - apply (f_equal String.length) in H. simpl in H.
    rewrite (append_length s u) in H. lia.
  - injection H as -> H. f_equal. now apply IH.
Qed.

Lemma csvPath_inj (dir k k' : string) : csvPath dir k = csvPath dir k' -> k = k'.
Proof.
  unfold csvPath. intros H. apply path_join_inj in H.
  now apply append_inj_l in H.
Qed.

Lemma csvPath_not_status (dir k : string) : csvPath dir k <> statusPath dir.
Proof.
  unfold csvPath, statusPath. intros H. apply path_join_inj in H.
  assert (Hl := f_equal String.length H). rewrite append_length in Hl.
  simpl in Hl.
  destruct k as [| c1 [| c2 [| c3 [| c4 [| c5 [| c6 k]]]]]]; simpl in Hl; try lia.
  simpl in H. discriminate H.
Qed.

Section Loop.

Variable env : Env.
Variable dir : string.

Lemma forOf_loopBody (es : list (string * string)) (a : Acc) :
  forOf (loopBody env dir) es a = (fold_left (step env dir) es a, Normal tt).
Proof.
  revert a. induction es as [| e es IH]; intros a; simpl; [reflexivity |].
  rewrite loopBody_step. destruct (isEmptyTable env e.2); apply IH.
Qed.

Lemma step_details (a : Acc) (e : string * string) :
  exists d, details (step env dir a e) = details a ++ [d]
            /\ ManufacturerDetail.id d = e.1.
Proof.
  destruct e as [k u]. unfold step.
  destruct (pipeline env u) as [rows | x]; [| eexists; split; reflexivity].
  destruct (Z.of_nat (length rows) =? 0); [eexists; split; reflexivity |].
  destruct (differs _ _); [| eexists; split; reflexivity].
  destruct (writeFileError env _); eexists; split; reflexivity.
Qed.

Lemma fold_details (es : list (string * string)) (a : Acc) :
  exists l, details (fold_left (step env dir) es a) = details a ++ l
            /\ map ManufacturerDetail.id l = map fst es.
Proof.
  revert a. induction es as [| e es IH]; intros a; simpl.
  - exists []. now rewrite app_nil_r.
  - destruct (IH (step env dir a e)) as (l & -> & Hl).
    destruct (step_details a e) as (d & -> & Hd).
    exists (d :: l). split; [now rewrite <- app_assoc | simpl; congruence].
Qed.

Lemma fold_detail_at (es : list (string * string)) (a : Acc) (i : nat)
  (e : string * string) :
  es !! i = Some e ->
  details (fold_left (step env dir) es a) !! (length (details a) + i)%nat
  = last (details (step env dir (fold_left (step env dir) (take i es) a) e)).
Proof.
  intros Hi. rewrite <- (take_drop_middle es i e Hi) at 1.
  rewrite fold_left_app. simpl.
  set (ai := fold_left (step env dir) (take i es) a).
  destruct (fold_details (drop (S i) es) (step env dir ai e)) as (l2 & -> & _).
  destruct (step_details ai e) as (d & -> & _).
  destruct (fold_details (take i es) a) as (l1 & Hl1 & Hlen). fold ai in Hl1.
  rewrite Hl1, last_snoc.
  assert (length l1 = i) as Hi1.
  { apply (f_equal length) in Hlen. rewrite !length_map, length_take in Hlen.
    apply lookup_lt_Some in Hi. lia. }
  rewrite <- !app_assoc. rewrite lookup_app_r by lia.
  rewrite lookup_app_r by lia.
  replace (length (details a) + i - length (details a) - length l1)%nat with 0%nat by lia.
  reflexivity.
Qed.

Lemma step_counts (a : Acc) (e : string * string) :
  updatedCount (step env dir a e) + unchangedCount (step env dir a e)
    + (if isEmptyTable env e.2 then 1 else 0)
  = updatedCount a + unchangedCount a + 1.
Proof.
  destruct e as [k u]. unfold step, isEmptyTable. simpl.
  destruct (pipeline env u) as [rows | x]; simpl; [| lia].
  destruct (Z.of_nat (length rows) =? 0); simpl; [lia |].
  destruct (differs _ _); simpl; [| lia].
  destruct (writeFileError env _); simpl; lia.
Qed.

Lemma fold_counts (es : list (string * string)) (a : Acc) :
  updatedCount (fold_left (step env dir) es a)
    + unchangedCount (fold_left (step env dir) es a) + emptyTables env es
  = updatedCount a + unchangedCount a + Z.of_nat (length es).
Proof.
  unfold emptyTables. revert a.
  induction es as [| e es IH]; intros a; simpl; [lia |].
  specialize (IH (step env dir a e)). pose proof (step_counts a e) as Hs.
  destruct (isEmptyTable env e.2); simpl; lia.
Qed.

Lemma step_coherent (a : Acc) (e : string * string) :
  coherent a -> coherent (step env dir a e).
Proof.
  intros [Hids Hc Herr]. destruct e as [k u].
  assert (forall n m, coherent
    (push_detail (ManufacturerDetail.mk k false None n m) a)) as Hkeep.
  { intros n m. split; simpl.
    - unfold updatedIds. rewrite filter_app, filter_cons_False by (simpl; congruence).
      rewrite filter_nil, app_nil_r. exact Hids.
    - exact Hc.
    - apply Forall_app. split; [exact Herr |].
      constructor; [simpl; congruence | constructor]. }
  assert (forall n m, coherent
    (push_detail (ManufacturerDetail.mk k false None n m) (count_unchanged a)))
    as Hkeep'.
  { intros n m. destruct (Hkeep n m) as [H1 H2 H3]. split; assumption. }
  unfold step.
  destruct (pipeline env u) as [rows | x]; [| apply Hkeep'].
  destruct (Z.of_nat (length rows) =? 0); [apply Hkeep |].
  destruct (differs _ _); [| apply Hkeep'].
  destruct (writeFileError env _); [apply Hkeep' |].
  split; simpl.
  - unfold updatedIds. rewrite filter_app, filter_cons_True by reflexivity.
    rewrite filter_nil, map_app. simpl. now rewrite Hids.
  - rewrite length_app. simpl. lia.
  - apply Forall_app. split; [exact Herr |].
    constructor; [reflexivity | constructor].
Qed.

Lemma fold_coherent (es : list (string * string)) (a : Acc) :
  coherent a -> coherent (fold_left (step env dir) es a).
Proof.
  revert a. induction es as [| e es IH]; intros a Ha; simpl; [exact Ha |].
  apply IH, step_coherent, Ha.
Qed.

End Loop.

Section Files.

Variable env : Env.
Variable dir : string.

Lemma step_file_other (a : Acc) (e : string * string) (p : string) :
  p <> csvPath dir e.1 ->
  files (disk (step env dir a e)) !! p = files (disk a) !! p.
Proof.
  intros Hp. destruct e as [k u]. unfold step. simpl in Hp.
  destruct (pipeline env u) as [rows | x]; [| reflexivity].
  destruct (Z.of_nat (length rows) =? 0); [reflexivity |].
  destruct (differs _ _); [| reflexivity].
  destruct (writeFileError env _); [reflexivity |].
  simpl. now apply lookup_insert_ne.
Qed.

Lemma step_file_self (a : Acc) (e : string * string) :
  files (disk (step env dir a e)) !! csvPath dir e.1
  = fileAfter env dir (files (disk a) !! csvPath dir e.1) e.
Proof.
  destruct e as [k u]. unfold step, fileAfter. simpl.
  destruct (pipeline env u) as [rows | x]; [| reflexivity].
  destruct (Z.of_nat (length rows) =? 0); [reflexivity |].
  destruct (differs _ _); [| reflexivity].
  destruct (writeFileError env _); [reflexivity |].
  simpl. apply lookup_insert_eq.
Qed.

Lemma step_dirs (a : Acc) (e : string * string) :
  dirs (disk (step env dir a e)) = dirs (disk a).
Proof.
  destruct e as [k u]. unfold step.
  destruct (pipeline env u) as [rows | x]; [| reflexivity].
  destruct (Z.of_nat (length rows) =? 0); [reflexivity |].
  destruct (differs _ _); [| reflexivity].
  destruct (writeFileError env _); reflexivity.
Qed.

Lemma fold_dirs (es : list (string * string)) (a : Acc) :
  dirs (disk (fold_left (step env dir) es a)) = dirs (disk a).
Proof.
  revert a. induction es as [| e es IH]; intros a; simpl; [reflexivity |].
  now rewrite IH, step_dirs.
Qed.

Lemma fold_file_other (es : list (string * string)) (a : Acc) (p : string) :
  Forall (fun e => p <> csvPath dir e.1) es ->
  files (disk (fold_left (step env dir) es a)) !! p = files (disk a) !! p.
Proof.
  revert a. induction es as [| e es IH]; intros a H; simpl; [reflexivity |].
  inversion H as [| ? ? He Hes]; subst.
  rewrite IH by exact Hes. now apply step_file_other.
Qed.

Lemma other_keys (es : list (string * string)) (k : string) :
  k ∉ map fst es -> Forall (fun e => csvPath dir k <> csvPath dir e.1) es.
Proof.
  intros Hk. apply Forall_forall. intros e He Heq.
  apply csvPath_inj in Heq. apply Hk. subst k.
  apply list_elem_of_fmap. now exists e.
Qed.

Lemma fold_file (es : list (string * string)) (a : Acc) (e : string * string) :
  NoDup (map fst es) -> e ∈ es ->
  files (disk (fold_left (step env dir) es a)) !! csvPath dir e.1
  = fileAfter env dir (files (disk a) !! csvPath dir e.1) e.
Proof.
  revert a. induction es as [| e0 es IH]; intros a Hnd Hin.
  - now apply elem_of_nil in Hin.
  - simpl in Hnd. apply NoDup_cons in Hnd as [Hfresh Hnd]. simpl.
    apply elem_of_cons in Hin as [-> | Hin].
    + rewrite fold_file_other by now apply other_keys.
      apply step_file_self.
    + rewrite IH by assumption. f_equal. apply step_file_other.
      intros Heq. apply csvPath_inj in Heq. apply Hfresh. rewrite <- Heq.
      apply list_elem_of_fmap. now exists e.
Qed.

Lemma fileAfter_settled (f : gmap string string) (old : option string)
  (e : string * string) :
  f !! csvPath dir e.1 = fileAfter env dir old e -> settled env dir f e.
Proof.
  unfold fileAfter, settled. intros ->.
  destruct (pipeline env e.2) as [rows | x]; [| exact I].
  destruct (Z.of_nat (length rows) =? 0) eqn:Hn; [left; lia |].
  destruct (differs old (rowsToCSV rows)) eqn:Hd; [| right; left; exact Hd].
  destruct (writeFileError env _) eqn:Hw; [right; right; congruence |].
  right; left. simpl. now rewrite String.eqb_refl.
Qed.

Lemma settled_fileAfter (old : option string) (e : string * string) :
  fileAfter env dir (fileAfter env dir old e) e = fileAfter env dir old e.
Proof.
  unfold fileAfter.
  destruct (pipeline env e.2) as [rows | x]; [| reflexivity].
  destruct (Z.of_nat (length rows) =? 0); [reflexivity |].
  destruct (differs old (rowsToCSV rows)) eqn:Hd; [| now rewrite Hd].
  destruct (writeFileError env _) eqn:Hw; [now rewrite Hd |].
  simpl. now rewrite String.eqb_refl.
Qed.

Lemma step_settled (a : Acc) (e : string * string) :
  settled env dir (files (disk a)) e ->
  disk (step env dir a e) = disk a
  /\ updatedCount (step env dir a e) = updatedCount a.
Proof.
  destruct e as [k u]. unfold settled, step. simpl.
  destruct (pipeline env u) as [rows | x]; [| now split].
  destruct (Z.of_nat (length rows) =? 0) eqn:Hn; [now split |].
  intros [H | [H | H]]; [lia | now rewrite H |].
  destruct (differs _ _); [| now split].
  destruct (writeFileError env _); [now split | congruence].
Qed.

Lemma fold_settled (es : list (string * string)) (a : Acc) :
  Forall (settled env dir (files (disk a))) es ->
  disk (fold_left (step env dir) es a) = disk a
  /\ updatedCount (fold_left (step env dir) es a) = updatedCount a.
Proof.
  revert a. induction es as [| e es IH]; intros a H; simpl; [now split |].
  inversion H as [| ? ? He Hes]; subst.
  destruct (step_settled a e He) as [Hd Hc].
  destruct (IH (step env dir a e)) as [Hd' Hc']; [now rewrite Hd |].
  split; congruence.
Qed.

End Files.

Lemma afterLoop_eq (env : Env) (fs1 : FS) :
  noError (writeFileError env (statusPath (outputDirOf env))) = true ->
  match syncLoop env (outputDirOf env) fs1 with
  | (a, Thrown e) => (disk a, Thrown e)
  | (a, _) =>
      (writeLastRunStatus env (outputDirOf env)
         (LastRunStatus.mk (now env) (updatedManufacturers a));;
       ret (SyncResult.mk
              (Z.of_nat (length (map fst MANUFACTURER_POLICIES)))
              (updatedCount a) (unchangedCount a) (details a))) (disk a)
  end
  = (with_files
       (<[statusPath (outputDirOf env) := statusOf env (loopEnd env fs1)]>
          (files (disk (loopEnd env fs1))))
       (disk (loopEnd env fs1)),
     Normal (resultOf (loopEnd env fs1))).
Proof.
  intros Hst. unfold syncLoop. rewrite forOf_loopBody. unfold loopEnd.
  generalize (fold_left (step env (outputDirOf env)) MANUFACTURER_POLICIES
                (initialAcc fs1)).
  intros a. unfold bind, writeLastRunStatus, fs_writeFile, ret.
  destruct (writeFileError env (statusPath (outputDirOf env)));
    [discriminate Hst | reflexivity].
Qed.

Lemma afterLoop_returns (env : Env) (fs1 fs' : FS) (r : SyncResult.t) :
  match syncLoop env (outputDirOf env) fs1 with
  | (a, Thrown e) => (disk a, Thrown e)
  | (a, _) =>
      (writeLastRunStatus env (outputDirOf env)
         (LastRunStatus.mk (now env) (updatedManufacturers a));;
       ret (SyncResult.mk
              (Z.of_nat (length (map fst MANUFACTURER_POLICIES)))
              (updatedCount a) (unchangedCount a) (details a))) (disk a)
  end = (fs', Normal r) ->
  noError (writeFileError env (statusPath (outputDirOf env))) = true.
Proof.
  unfold syncLoop. rewrite forOf_loopBody.
  generalize (fold_left (step env (outputDirOf env)) MANUFACTURER_POLICIES
                (initialAcc fs1)).
  intros a. unfold bind, writeLastRunStatus, fs_writeFile, ret.
  destruct (writeFileError env _); [discriminate | reflexivity].
Qed.

Lemma execute_run (env : Env) (fs : FS) :
  canRun env fs = true ->
  exists fs1,
    files fs1 = files fs /\ dirs fs ⊆ dirs fs1 /\ dirExists env fs1 = true
    /\ execute env fs
       = (with_files
            (<[statusPath (outputDirOf env) := statusOf env (loopEnd env fs1)]>
               (files (disk (loopEnd env fs1))))
            (disk (loopEnd env fs1)),
          Normal (resultOf (loopEnd env fs1))).
Proof.
  unfold canRun. intros H. apply andb_true_iff in H as [Hdir Hst].
  unfold execute. unfold bind at 1.
  unfold ensureOutputDir, bind, tryCatch, fs_access, fs_mkdir, ret.
  fold (outputDirOf env). fold (dirExists env fs).
  destruct (dirExists env fs) eqn:Hd.
  - exists fs. split; [reflexivity |]. split; [set_solver |].
    split; [exact Hd | exact (afterLoop_eq env fs Hst)].
  - simpl in Hdir. destruct (mkdirError env (outputDirOf env));
      [discriminate Hdir |].
    exists {| files := files fs; dirs := {[outputDirOf env]} ∪ dirs fs |}.
    split; [reflexivity |]. split; [set_solver |].
    split; [| exact (afterLoop_eq env _ Hst)].
    unfold dirExists. apply orb_true_iff. left.
    apply bool_decide_eq_true. set_solver.
Qed.

Lemma execute_returns_iff (env : Env) (fs : FS) :
  canRun env fs = true <-> exists fs' r, execute env fs = (fs', Normal r).
Proof.
  split.
  - intros H. destruct (execute_run env fs H) as (fs1 & _ & _ & _ & ->).
    now eexists _, _.
  - intros (fs' & r & H). unfold canRun.
    unfold execute in H. unfold bind at 1 in H.
    unfold ensureOutputDir, bind, tryCatch, fs_access, fs_mkdir, ret in H.
    fold (outputDirOf env) in H. fold (dirExists env fs) in H.
    destruct (dirExists env fs).
    + apply andb_true_iff. split; [reflexivity |].
      exact (afterLoop_returns env _ _ _ H).
    + destruct (mkdirError env (outputDirOf env)); [discriminate H |].
      apply andb_true_iff. split; [reflexivity |].
      exact (afterLoop_returns env _ _ _ H).
Qed.

(** ** Facts about the registry *)

Lemma registry_size : length MANUFACTURER_POLICIES = 17%nat.
Proof. reflexivity. Qed.

Lemma registry_keys_NoDup : NoDup (map fst MANUFACTURER_POLICIES).
Proof. apply (bool_decide_unpack _). vm_compute. reflexivity. Qed.

Lemma loopEnd_ids (env : Env) (fs : FS) :
  map ManufacturerDetail.id (details (loopEnd env fs))
  = map fst MANUFACTURER_POLICIES.
Proof.
  unfold loopEnd.
  destruct (fold_details env (outputDirOf env) MANUFACTURER_POLICIES
              (initialAcc fs)) as (l & -> & Hl).
  exact Hl.
Qed.

Lemma loopEnd_coherent (env : Env) (fs : FS) : coherent (loopEnd env fs).
Proof.
  apply fold_coherent. split; simpl; [reflexivity | reflexivity | constructor].
Qed.

Lemma loopEnd_detail (env : Env) (fs : FS) (i : nat) (e : string * string) :
  MANUFACTURER_POLICIES !! i = Some e ->
  details (loopEnd env fs) !! i
  = last (details (step env (outputDirOf env)
            (fold_left (step env (outputDirOf env))
               (take i MANUFACTURER_POLICIES) (initialAcc fs)) e)).
Proof.
  intros Hi. unfold loopEnd.
  exact (fold_detail_at env (outputDirOf env) MANUFACTURER_POLICIES
           (initialAcc fs) i e Hi).
Qed.

Lemma loopEnd_file (env : Env) (fs : FS) (e : string * string) :
  e ∈ MANUFACTURER_POLICIES ->
  files (disk (loopEnd env fs)) !! csvPath (outputDirOf env) e.1
  = fileAfter env (outputDirOf env) (files fs !! csvPath (outputDirOf env) e.1) e.
Proof.
  intros He. unfold loopEnd.
  exact (fold_file env (outputDirOf env) MANUFACTURER_POLICIES (initialAcc fs)
           e registry_keys_NoDup He).
Qed.

(** The files before the iteration for the entry at index [i] hold, at this
    entry's path, what the run started with. *)
Lemma before_entry_file (env : Env) (fs : FS) (i : nat) (e : string * string) :
  MANUFACTURER_POLICIES !! i = Some e ->
  files (disk (fold_left (step env (outputDirOf env))
                 (take i MANUFACTURER_POLICIES) (initialAcc fs)))
    !! csvPath (outputDirOf env) e.1
  = files fs !! csvPath (outputDirOf env) e.1.
Proof.
  intros Hi. rewrite fold_file_other; [reflexivity |].
  apply other_keys. pose proof registry_keys_NoDup as Hnd.
  rewrite <- (take_drop_middle _ i e Hi) in Hnd.
  rewrite map_app in Hnd. simpl in Hnd.
  apply NoDup_app in Hnd as (_ & Hdis & _).
  intros Hin. apply (Hdis _ Hin). left.
Qed.

(** ** The claims about the sync loop *)

(* The proofs below never need the entries of the registry one by one. *)
#[local] Opaque MANUFACTURER_POLICIES.

Lemma canRun_returns (env : Env) (fs : FS) :
  canRun env fs = true ->
  exists fs1,
    files fs1 = files fs
    /\ execute env fs
       = (with_files
            (<[statusPath (outputDirOf env) := statusOf env (loopEnd env fs1)]>
               (files (disk (loopEnd env fs1))))
            (disk (loopEnd env fs1)),
          Normal (resultOf (loopEnd env fs1))).
Proof.
  intros H. destruct (execute_run env fs H) as (fs1 & Hf & _ & _ & Hex).
  now exists fs1.
Qed.

Lemma empty_rows (A : Type) (rows : list A) :
  (Z.of_nat (length rows) =? 0) = true <-> rows = [].
Proof.
  split.
  - intros H. apply Z.eqb_eq in H. destruct rows; [reflexivity | simpl in H; lia].
  - now intros ->.
Qed.

Lemma nonempty_rows (A : Type) (rows : list A) :
  rows <> [] -> (Z.of_nat (length rows) =? 0) = false.
Proof.
  intros H. destruct rows; [congruence |]. apply Z.eqb_neq. simpl. lia.
Qed.

Lemma isEmptyTable_iff (env : Env) (url : string) :
  isEmptyTable env url = true <-> pipeline env url = Ok [].
Proof.
  unfold isEmptyTable. destruct (pipeline env url) as [rows | e].
  - rewrite empty_rows. split; congruence.
  - split; discriminate.
Qed.

(** C2. A manufacturer whose parse yields zero rows gets a detail with the
    error "No rows extracted from markdown table" and [updated = false];
    its iteration changes neither counter (and no file) and goes on to the
    next manufacturer. In the result of a run, [updated + unchanged] and the
    number of such manufacturers add up to [totalManufacturers], so the sum
    of the two counters is below the total as soon as there is one. *)
Theorem C2_empty_table_counted_nowhere (env : Env) (fs : FS) :
  canRun env fs = true ->
  (forall (a : Acc) (k u : string),
     pipeline env u = Ok [] ->
     let '(a', c) := loopBody env (outputDirOf env) (k, u) a in
     details a'
     = details a
         ++ [ManufacturerDetail.mk k false None None
               (Some "No rows extracted from markdown table")]
     /\ updatedCount a' = updatedCount a
     /\ unchangedCount a' = unchangedCount a
     /\ updatedManufacturers a' = updatedManufacturers a
     /\ disk a' = disk a
     /\ c = Continue)
  /\ exists fs' r,
       execute env fs = (fs', Normal r)
       /\ (forall (i : nat) (k u : string),
             MANUFACTURER_POLICIES !! i = Some (k, u) ->
             pipeline env u = Ok [] ->
             SyncResult.details r !! i
             = Some (ManufacturerDetail.mk k false None None
                       (Some "No rows extracted from markdown table")))
       /\ SyncResult.totalManufacturers r
            - (SyncResult.updated r + SyncResult.unchanged r)
          = emptyTables env MANUFACTURER_POLICIES
       /\ (0 < emptyTables env MANUFACTURER_POLICIES ->
           SyncResult.updated r + SyncResult.unchanged r
           < SyncResult.totalManufacturers r).
Proof.
  intros Hrun. split.
  - intros a k u Hp. rewrite loopBody_step. simpl.
    rewrite (proj2 (isEmptyTable_iff env u) Hp). unfold step. rewrite Hp.
    simpl. repeat split.
  - destruct (canRun_returns env fs Hrun) as (fs1 & Hf & Hex).
    eexists _, _. split; [exact Hex |].
    assert (SyncResult.totalManufacturers (resultOf (loopEnd env fs1))
              - (SyncResult.updated (resultOf (loopEnd env fs1))
                 + SyncResult.unchanged (resultOf (loopEnd env fs1)))
            = emptyTables env MANUFACTURER_POLICIES) as Hgap.
    { pose proof (fold_counts env (outputDirOf env) MANUFACTURER_POLICIES
                    (initialAcc fs1)) as Hc.
      fold (loopEnd env fs1) in Hc. simpl in Hc. unfold resultOf. simpl.
      rewrite length_map. lia. }
    split; [| split; [exact Hgap | lia]].
    intros i k u Hi Hp. unfold resultOf. simpl.
    rewrite (loopEnd_detail env fs1 i (k, u) Hi).
    unfold step at 1. rewrite Hp. simpl. now rewrite last_snoc.
Qed.

Lemma C2_witness :
  canRun sampleEnv emptyDisk = true
  /\ exists fs' r,
       execute sampleEnv emptyDisk = (fs', Normal r)
       /\ SyncResult.details r !! 3%nat
          = Some (ManufacturerDetail.mk "astrazeneca" false None None
                    (Some "No rows extracted from markdown table"))
       /\ SyncResult.totalManufacturers r
            - (SyncResult.updated r + SyncResult.unchanged r) = 1.
Proof.
  split; [vm_compute; reflexivity |].
  destruct (C2_empty_table_counted_nowhere sampleEnv emptyDisk)
    as (_ & fs' & r & Hex & Hd & Hgap & _); [vm_compute; reflexivity |].
  exists fs', r. split; [exact Hex |]. split.
  - apply (Hd 3%nat "astrazeneca"
             "https://340besp.com/resources/astrazeneca/policy.pdf");
      vm_compute; reflexivity.
  - rewrite Hgap. vm_compute. reflexivity.
Defined.

(** C3, as stated, fails on the message: what the collaborator throws
    decides it. Under [sampleEnv] the PDF decoder throws an [Error] whose
    message is empty for the third manufacturer, and the detail of the run
    carries the empty string. *)
Lemma C3_empty_message :
  throwsAt sampleEnv "https://340besp.com/resources/amgen/policy.pdf"
    (ErrorInstance "")
  /\ exists fs' r,
       execute sampleEnv emptyDisk = (fs', Normal r)
       /\ SyncResult.details r !! 2%nat
          = Some (ManufacturerDetail.mk "amgen" false None None (Some "")).
Proof.
  split.
  - right; left. exists [Byte.x02]. split; vm_compute; reflexivity.
  - eexists _, _. split; vm_compute; reflexivity.
Qed.

(** C3, amended. A manufacturer whose pipeline throws at the fetch, the
    extraction or the generation gets a detail whose error is the message
    of what was thrown, with [updated = false]; its iteration adds one to
    [unchangedCount], leaves [updatedCount] and the files alone and ends
    normally, so the loop goes on. A response with a failure status throws
    the message "Failed to download PDF from <url>: <status text>", which
    is not empty. *)
Theorem C3_thrown_counts_as_unchanged (env : Env) (fs : FS) :
  canRun env fs = true ->
  (forall (a : Acc) (k u : string) (e : JsThrown),
     throwsAt env u e ->
     let '(a', c) := loopBody env (outputDirOf env) (k, u) a in
     details a'
     = details a
         ++ [ManufacturerDetail.mk k false None None (Some (errorMessage e))]
     /\ unchangedCount a' = unchangedCount a + 1
     /\ updatedCount a' = updatedCount a
     /\ updatedManufacturers a' = updatedManufacturers a
     /\ disk a' = disk a
     /\ c = Normal tt)
  /\ (forall (u : string) (response : Response),
        fetch env u = Ok response -> ok response = false ->
        throwsAt env u
          (ErrorInstance
             ("Failed to download PDF from " +:+ u +:+ ": "
                +:+ statusText response))
        /\ "Failed to download PDF from " +:+ u +:+ ": " +:+ statusText response
           <> "")
  /\ exists fs' r,
       execute env fs = (fs', Normal r)
       /\ length (SyncResult.details r) = length MANUFACTURER_POLICIES
       /\ forall (i : nat) (k u : string) (e : JsThrown),
            MANUFACTURER_POLICIES !! i = Some (k, u) ->
            throwsAt env u e ->
            SyncResult.details r !! i
            = Some (ManufacturerDetail.mk k false None None
                      (Some (errorMessage e))).
Proof.
  intros Hrun. split; [| split].
  - intros a k u e He.
    apply pipeline_throws in He. rewrite loopBody_step. simpl.
    unfold isEmptyTable, step. rewrite He. simpl. repeat split.
  - intros u response Hf Hok. split; [| discriminate].
    left. unfold downloadPDF. now rewrite Hf, Hok.
  - destruct (canRun_returns env fs Hrun) as (fs1 & Hf & Hex).
    eexists _, _. split; [exact Hex |]. split.
    + unfold resultOf. simpl.
      rewrite <- (length_map ManufacturerDetail.id), loopEnd_ids.
      apply length_map.
    + intros i k u e Hi He. apply pipeline_throws in He.
      unfold resultOf. simpl. rewrite (loopEnd_detail env fs1 i (k, u) Hi).
      unfold step at 1. rewrite He. simpl. now rewrite last_snoc.
Qed.

Lemma C3_witness :
  canRun sampleEnv emptyDisk = true
  /\ exists fs' r,
       execute sampleEnv emptyDisk = (fs', Normal r)
       /\ SyncResult.details r !! 4%nat
          = Some (ManufacturerDetail.mk "biogen" false None None
                    (Some "rate limit exceeded")).
Proof.
  split; [vm_compute; reflexivity |].
  destruct (C3_thrown_counts_as_unchanged sampleEnv emptyDisk)
    as (_ & _ & fs' & r & Hex & _ & Hd); [vm_compute; reflexivity |].
  exists fs', r. split; [exact Hex |].
  apply (Hd 4%nat "biogen" "https://340besp.com/resources/biogen/policy.pdf"
           (ErrorInstance "rate limit exceeded")).
  - vm_compute; reflexivity.
  - right; right. exists [Byte.x04], "four". repeat split; vm_compute; reflexivity.
Defined.

(** C6. The result of a run has [totalManufacturers] equal to the number of
    entries of the registry, which is 17, and one detail per entry, whose ids
    are the keys of the registry in its order, whatever the collaborators
    do. *)
Theorem C6_one_detail_per_entry (env : Env) (fs : FS) :
  canRun env fs = true ->
  exists fs' r,
    execute env fs = (fs', Normal r)
    /\ SyncResult.totalManufacturers r
       = Z.of_nat (length MANUFACTURER_POLICIES)
    /\ length (SyncResult.details r) = length MANUFACTURER_POLICIES
    /\ map ManufacturerDetail.id (SyncResult.details r)
       = map fst MANUFACTURER_POLICIES
    /\ length MANUFACTURER_POLICIES = 17%nat.
Proof.
  intros Hrun. destruct (canRun_returns env fs Hrun) as (fs1 & Hf & Hex).
  eexists _, _. split; [exact Hex |]. unfold resultOf. simpl.
  split; [now rewrite length_map |]. split; [| split].
  - rewrite <- (length_map ManufacturerDetail.id), loopEnd_ids.
    apply length_map.
  - apply loopEnd_ids.
  - reflexivity.
Qed.

Lemma C6_witness :
  canRun sampleEnv emptyDisk = true
  /\ exists fs' r,
       execute sampleEnv emptyDisk = (fs', Normal r)
       /\ SyncResult.totalManufacturers r = 17
       /\ length (SyncResult.details r) = 17%nat.
Proof.
  split; [vm_compute; reflexivity |].
  destruct (C6_one_detail_per_entry sampleEnv emptyDisk)
    as (fs' & r & Hex & Ht & Hl & _ & Hn); [vm_compute; reflexivity |].
  exists fs', r. rewrite Ht, Hl, Hn. repeat split. exact Hex.
Defined.

(** C10. In a run, the [updates] list written to the status file is the
    list of the ids of the details whose [updated] is true, in the order of
    the details; the [updated] count of the result is its length; and no
    detail has [updated = true] together with an error. *)
Theorem C10_status_matches_details (env : Env) (fs : FS) :
  canRun env fs = true ->
  exists fs' r,
    execute env fs = (fs', Normal r)
    /\ files fs' !! statusPath (outputDirOf env)
       = Some (JSON_stringify
                 (LastRunStatus.mk (now env)
                    (updatedIds (SyncResult.details r))))
    /\ SyncResult.updated r
       = Z.of_nat (length (updatedIds (SyncResult.details r)))
    /\ Forall (fun d => ManufacturerDetail.updated d = true ->
                        ManufacturerDetail.error d = None)
         (SyncResult.details r).
Proof.
  intros Hrun. destruct (canRun_returns env fs Hrun) as (fs1 & Hf & Hex).
  destruct (loopEnd_coherent env fs1) as [Hids Hc Herr].
  eexists _, _. split; [exact Hex |]. unfold resultOf. simpl.
  split; [| split].
  - rewrite lookup_insert_eq. unfold statusOf. now rewrite Hids.
  - now rewrite <- Hids.
  - exact Herr.
Qed.

Lemma C10_witness :
  canRun sampleEnv emptyDisk = true
  /\ exists fs' r,
       execute sampleEnv emptyDisk = (fs', Normal r)
       /\ files fs' !! statusPath (outputDirOf sampleEnv)
          = Some (JSON_stringify
                    (LastRunStatus.mk (now sampleEnv)
                       (updatedIds (SyncResult.details r))))
       /\ updatedIds (SyncResult.details r) = ["abbvie"].
Proof.
  split; [vm_compute; reflexivity |].
  destruct (C10_status_matches_details sampleEnv emptyDisk)
    as (fs' & r & Hex & Hs & _ & _); [vm_compute; reflexivity |].
  exists fs', r. split; [exact Hex |]. split; [exact Hs |].
  assert (execute sampleEnv emptyDisk
          = ((execute sampleEnv emptyDisk).1,
             Normal (resultOf (loopEnd sampleEnv emptyDisk)))) as Hex'
    by (vm_compute; reflexivity).
  rewrite Hex in Hex'. injection Hex' as ->. vm_compute. reflexivity.
Defined.

(** ** The claims about the snapshot files *)


Lemma differs_false (csv : string) : differs (Some csv) csv = false.
Proof. simpl. now rewrite String.eqb_refl. Qed.









Lemma path_join_longer (dir x : string) : path_join dir x <> dir.
Proof.
  unfold path_join. intros H. apply (f_equal String.length) in H.
  rewrite append_length in H. simpl in H. lia.
Qed.

Lemma outputDirOf_with_now (t : string) (env : Env) :
  outputDirOf (with_now t env) = outputDirOf env.
Proof. reflexivity. Qed.

Lemma step_with_now (t : string) (env : Env) (dir : string) (a : Acc)
  (e : string * string) :
  step (with_now t env) dir a e = step env dir a e.
Proof. destruct e as [k u]. reflexivity. Qed.

Lemma fold_with_now (t : string) (env : Env) (dir : string)
  (es : list (string * string)) (a : Acc) :
  fold_left (step (with_now t env) dir) es a = fold_left (step env dir) es a.
Proof.
  revert a. induction es as [| e es IH]; intros a; simpl; [reflexivity |].
  now rewrite step_with_now, IH.
Qed.

Lemma loopEnd_with_now (t : string) (env : Env) (fs : FS) :
  loopEnd (with_now t env) fs = loopEnd env fs.
Proof. unfold loopEnd. rewrite outputDirOf_with_now. apply fold_with_now. Qed.

Lemma canRun_with_now (t : string) (env : Env) (fs : FS) :
  canRun (with_now t env) fs = canRun env fs.
Proof. reflexivity. Qed.

(** After a run that returns, a second run returns too. *)
Lemma canRun_again (env : Env) (fs0 : FS) (a : Acc) (status : string) :
  dirExists env fs0 = true ->
  noError (writeFileError env (statusPath (outputDirOf env))) = true ->
  dirs (disk a) = dirs fs0 ->
  files (disk a) !! outputDirOf env = files fs0 !! outputDirOf env ->
  canRun env
    (with_files (<[statusPath (outputDirOf env) := status]> (files (disk a)))
       (disk a)) = true.
Proof.
  intros Hdir Hst Hdirs Hfile. unfold canRun. rewrite Hst, andb_true_r.
  apply orb_true_iff. left. unfold dirExists in *.
  apply orb_true_iff in Hdir as [Hd | Hd]; apply orb_true_iff.
  - left. apply bool_decide_eq_true. apply bool_decide_eq_true in Hd.
    unfold with_files. cbn [dirs]. now rewrite Hdirs.
  - right. apply bool_decide_eq_true. apply bool_decide_eq_true in Hd.
    unfold with_files. cbn [files].
    rewrite lookup_insert_ne by apply path_join_longer.
    now rewrite Hfile.
Qed.

Lemma loopEnd_dir (env : Env) (fs0 : FS) :
  dirs (disk (loopEnd env fs0)) = dirs fs0
  /\ files (disk (loopEnd env fs0)) !! outputDirOf env
     = files fs0 !! outputDirOf env.
Proof.
  unfold loopEnd. split; [apply fold_dirs |].
  rewrite fold_file_other; [reflexivity |].
  apply Forall_forall. intros e _. apply not_eq_sym, path_join_longer.
Qed.

(** On the disk a run leaves, every entry of the registry is settled. *)
Lemma settled_after_run (env : Env) (fs0 fs1 : FS) (status : string) :
  files fs1
  = <[statusPath (outputDirOf env) := status]> (files (disk (loopEnd env fs0))) ->
  Forall (settled env (outputDirOf env) (files fs1)) MANUFACTURER_POLICIES.
Proof.
  intros Hf. apply Forall_forall. intros e He. rewrite Hf.
  apply (fileAfter_settled env (outputDirOf env) _
           (files fs0 !! csvPath (outputDirOf env) e.1)).
  rewrite lookup_insert_ne by apply not_eq_sym, csvPath_not_status.
  now apply loopEnd_file.
Qed.

Lemma loopEnd_settled (env : Env) (fs1 : FS) :
  Forall (settled env (outputDirOf env) (files fs1)) MANUFACTURER_POLICIES ->
  disk (loopEnd env fs1) = fs1 /\ updatedCount (loopEnd env fs1) = 0.
Proof.
  intros H. unfold loopEnd.
  exact (fold_settled env (outputDirOf env) MANUFACTURER_POLICIES
           (initialAcc fs1) H).
Qed.

(** C9. A run followed by a second run with the same collaborators (at a
    later time [t]): the second run reports [updated = 0], and leaves every
    file other than the status record, so every snapshot, as the first run
    left it. *)
Theorem C9_second_run_updates_nothing (env : Env) (fs : FS) (t : string) :
  canRun env fs = true ->
  exists fs1 r1 fs2 r2,
    execute env fs = (fs1, Normal r1)
    /\ execute (with_now t env) fs1 = (fs2, Normal r2)
    /\ SyncResult.updated r2 = 0
    /\ (forall p, p <> statusPath (outputDirOf env) ->
                  files fs2 !! p = files fs1 !! p)
    /\ (forall k u, (k, u) ∈ MANUFACTURER_POLICIES ->
                    files fs2 !! csvPath (outputDirOf env) k
                    = files fs1 !! csvPath (outputDirOf env) k).
Proof.
  intros Hrun.
  destruct (execute_run env fs Hrun) as (fs0 & Hf0 & _ & Hdir & Hex).
  assert (noError (writeFileError env (statusPath (outputDirOf env))) = true)
    as Hst by (unfold canRun in Hrun; now apply andb_true_iff in Hrun).
  destruct (loopEnd_dir env fs0) as [Hdirs Hfile].
  pose proof (fun status => settled_after_run env fs0
                (with_files (<[statusPath (outputDirOf env) := status]>
                               (files (disk (loopEnd env fs0))))
                   (disk (loopEnd env fs0))) status eq_refl) as Hsettled.
  revert Hex Hdirs Hfile Hsettled.
  generalize (loopEnd env fs0). intros a0 Hex Hdirs Hfile Hsettled.
  pose proof (canRun_again env fs0 a0 (statusOf env a0) Hdir Hst Hdirs Hfile)
    as Hrun2.
  rewrite <- (canRun_with_now t) in Hrun2.
  revert Hex Hrun2. specialize (Hsettled (statusOf env a0)). revert Hsettled.
  generalize (with_files (<[statusPath (outputDirOf env) := statusOf env a0]>
                            (files (disk a0))) (disk a0)).
  intros fs1 Hsettled Hex Hrun2.
  destruct (execute_run (with_now t env) fs1 Hrun2)
    as (fs1' & Hf1 & _ & _ & Hex2).
  rewrite loopEnd_with_now, outputDirOf_with_now in Hex2.
  rewrite <- Hf1 in Hsettled.
  destruct (loopEnd_settled env fs1' Hsettled) as [Hdisk Hcount].
  revert Hex2 Hdisk Hcount. generalize (loopEnd env fs1').
  intros a1 Hex2 Hdisk Hcount.
  exists fs1, (resultOf a0). eexists _, _.
  split; [exact Hex |]. split; [exact Hex2 |]. split; [exact Hcount |].
  assert (forall p, p <> statusPath (outputDirOf env) ->
    files (with_files
             (<[statusPath (outputDirOf env) := statusOf (with_now t env) a1]>
                (files (disk a1))) (disk a1)) !! p
    = files fs1 !! p) as Hsame.
  { intros p Hp. unfold with_files. cbn [files].
    rewrite lookup_insert_ne by now apply not_eq_sym.
    now rewrite Hdisk, Hf1. }
  split; [exact Hsame |].
  intros k u _. apply Hsame, csvPath_not_status.
Qed.

Lemma C9_witness :
  canRun sampleEnv emptyDisk = true
  /\ exists fs1 r1 fs2 r2,
       execute sampleEnv emptyDisk = (fs1, Normal r1)
       /\ execute (with_now "2025-01-02T00:00:00.000Z" sampleEnv) fs1
          = (fs2, Normal r2)
       /\ SyncResult.updated r1 = 1
       /\ SyncResult.updated r2 = 0.
Proof.
  split; [vm_compute; reflexivity |].
  destruct (C9_second_run_updates_nothing sampleEnv emptyDisk
              "2025-01-02T00:00:00.000Z")
    as (fs1 & r1 & fs2 & r2 & Hex1 & Hex2 & Hu & _); [vm_compute; reflexivity |].
  exists fs1, r1, fs2, r2. split; [exact Hex1 |]. split; [exact Hex2 |].
  split; [| exact Hu].
  assert (execute sampleEnv emptyDisk
          = ((execute sampleEnv emptyDisk).1,
             Normal (resultOf (loopEnd sampleEnv emptyDisk)))) as Hex'
    by (vm_compute; reflexivity).
  rewrite Hex1 in Hex'. injection Hex' as ->. vm_compute. reflexivity.
Defined.

(** ** The claims about the parser and the writer *)

Lemma separator_without_inner_pipe : matchesSeparator "|---" = true.
Proof. reflexivity. Qed.

Lemma separator_with_inner_pipe : matchesSeparator "|---|---|" = false.
Proof. reflexivity. Qed.

(** C1. On the table of the claim the parser does not drop the line
    [|---|---|]: the pattern admits no pipe after the first character, the
    line fails it and is read as a row of two cells. The parse has three
    rows, not the two of the claim. *)
Theorem C1_separator_line_becomes_a_row :
  parseMarkdownTable
    ("| a | b |" +:+ String LF ("|---|---|" +:+ String LF "| 1 | 2 |"))
  = [["a"; "b"]; ["---"; "---"]; ["1"; "2"]].
Proof. vm_compute. reflexivity. Qed.

Lemma append_nil_r (s : string) : s +:+ "" = s.
Proof. induction s as [| c s IH]; simpl; [reflexivity | now rewrite IH]. Qed.

Lemma append_assoc (s t u : string) : (s +:+ t) +:+ u = s +:+ (t +:+ u).
Proof. induction s as [| c s IH]; simpl; [reflexivity | now rewrite IH]. Qed.

Lemma replaceAll_doubleQuotes (cell : string) :
  replaceAll DQUOTE (String DQUOTE (String DQUOTE EmptyString)) cell
  = doubleQuotes cell.
Proof.
  induction cell as [| c cell IH]; simpl; [reflexivity |].
  rewrite IH. now destruct (Ascii.eqb c DQUOTE).
Qed.

Lemma includes_hasSpecial (s : string) :
  includes s COMMA || includes s DQUOTE || includes s LF = hasSpecial s.
Proof.
  induction s as [| c s IH]; simpl; [reflexivity |].
  rewrite <- IH. unfold isSpecial.
  destruct (Ascii.eqb c COMMA), (Ascii.eqb c DQUOTE), (Ascii.eqb c LF),
    (includes s COMMA), (includes s DQUOTE), (includes s LF); reflexivity.
Qed.

Lemma cellToCSV_specCell (cell : string) : cellToCSV cell = specCell cell.
Proof.
  unfold cellToCSV, specCell.
  rewrite replaceAll_doubleQuotes, includes_hasSpecial.
  now destruct (hasSpecial (doubleQuotes cell)).
Qed.

Lemma hasSpecial_doubleQuotes (cell : string) :
  hasSpecial (doubleQuotes cell) = hasSpecial cell.
Proof.
  induction cell as [| c cell IH]; simpl; [reflexivity |].
  destruct (Ascii.eqb c DQUOTE) eqn:Hc; simpl.
  - apply Ascii.eqb_eq in Hc. subst c. reflexivity.
  - now rewrite IH.
Qed.

Lemma doubleQuotes_plain (cell : string) :
  hasSpecial cell = false -> doubleQuotes cell = cell.
Proof.
  induction cell as [| c cell IH]; simpl; [reflexivity |].
  intros H. apply orb_false_iff in H as [Hc Hs].
  unfold isSpecial in Hc. apply orb_false_iff in Hc as [Hc _].
  apply orb_false_iff in Hc as [_ Hq]. rewrite Hq. now rewrite IH.
Qed.

Lemma join_cons (sep x y : string) (l : list string) :
  join sep (x :: y :: l) = x +:+ sep +:+ join sep (y :: l).
Proof. reflexivity. Qed.

Lemma join_glue (sep a b : string) (l : list string) :
  join sep ((a +:+ sep +:+ b) :: l) = a +:+ sep +:+ join sep (b :: l).
Proof.
  destruct l as [| y l]; [reflexivity |].
  rewrite !join_cons. now rewrite !append_assoc.
Qed.

Lemma join_joined (c : ascii) (l : list string) :
  join (String c EmptyString) l = joined c l.
Proof.
  destruct l as [| first others]; [reflexivity |]. unfold joined.
  revert first. induction others as [| o os IH]; intros first; [reflexivity |].
  cbn [fold_left]. rewrite <- IH.
  change (first +:+ String c o) with (first +:+ String c EmptyString +:+ o).
  now rewrite join_glue.
Qed.

Lemma join_snoc (sep x : string) (l : list string) :
  join sep (l ++ [x])
  = match l with [] => x | _ => join sep l +:+ sep +:+ x end.
Proof.
  induction l as [| y l IH]; [reflexivity |].
  destruct l as [| z l]; [reflexivity |].
  change ((y :: z :: l) ++ [x]) with (y :: (z :: l) ++ [x]).
  change ((z :: l) ++ [x]) with (z :: (l ++ [x])) in *.
  rewrite join_cons, IH, join_cons. now rewrite !append_assoc.
Qed.

(** C7. [rowsToCSV] is the writer the specification describes: every quote
    of a cell doubled, the cell wrapped in quotes exactly when it contains a
    comma, a quote or a newline (before or after the doubling, which is the
    same), and left as it is otherwise; cells joined by commas, rows by
    newlines; a row added at the end comes behind one newline and nothing
    follows it. *)
Theorem C7_rowsToCSV_meets_its_description (rows : list (list string)) :
  rowsToCSV rows = specCSV rows
  /\ (forall cell, hasSpecial (doubleQuotes cell) = hasSpecial cell)
  /\ (forall cell, hasSpecial cell = true ->
                   cellToCSV cell
                   = String DQUOTE (doubleQuotes cell +:+ String DQUOTE EmptyString))
  /\ (forall cell, hasSpecial cell = false -> cellToCSV cell = cell)
  /\ (forall row,
        rowsToCSV (rows ++ [row])
        = match rows with
          | [] => rowsToCSV [row]
          | _ => rowsToCSV rows +:+ String LF (rowsToCSV [row])
          end).
Proof.
  split; [| split; [| split; [| split]]].
  - unfold rowsToCSV, specCSV. rewrite join_joined. f_equal.
    apply map_ext. intros row. rewrite join_joined. f_equal.
    apply map_ext. exact cellToCSV_specCell.
  - exact hasSpecial_doubleQuotes.
  - intros cell H. rewrite cellToCSV_specCell. unfold specCell.
    now rewrite hasSpecial_doubleQuotes, H.
  - intros cell H. rewrite cellToCSV_specCell. unfold specCell.
    rewrite hasSpecial_doubleQuotes, H. now apply doubleQuotes_plain.
  - intros row. unfold rowsToCSV. rewrite map_app. cbn [map].
    rewrite join_snoc. now destruct rows.
Qed.

(** ** The round trip through the reader *)

Lemma delimiter_not_quote (c : ascii) :
  Ascii.eqb c COMMA || Ascii.eqb c LF = true -> Ascii.eqb c DQUOTE = false.
Proof.
  intros H. apply orb_true_iff in H as [H | H]; apply Ascii.eqb_eq in H;
    subst c; reflexivity.
Qed.

Lemma plain_char (c : ascii) :
  isSpecial c = false ->
  Ascii.eqb c COMMA = false /\ Ascii.eqb c DQUOTE = false
  /\ Ascii.eqb c LF = false.
Proof.
  unfold isSpecial. intros H. apply orb_false_iff in H as [H Hl].
  apply orb_false_iff in H as [Hc Hq]. now repeat split.
Qed.

Section Reader.

Variables (rows : list (list string)) (row : list string).

Lemma read_plain (cell field rest : string) :
  hasSpecial cell = false ->
  readFrom InUnquoted rows row field (cell +:+ rest)
  = readFrom InUnquoted rows row (field +:+ cell) rest.
Proof.
  revert field. induction cell as [| c cell IH]; intros field H; simpl.
  - now rewrite append_nil_r.
  - simpl in H. apply orb_false_iff in H as [Hc Hs].
    destruct (plain_char c Hc) as (-> & _ & ->).
    rewrite (IH _ Hs). unfold snoc. now rewrite append_assoc.
Qed.

Lemma read_quoted (cell field rest : string) :
  readFrom InQuoted rows row field (doubleQuotes cell +:+ String DQUOTE rest)
  = readFrom AfterQuote rows row (field +:+ cell) rest.
Proof.
  revert field. induction cell as [| c cell IH]; intros field; simpl.
  - now rewrite append_nil_r.
  - destruct (Ascii.eqb c DQUOTE) eqn:Hc; simpl.
    + apply Ascii.eqb_eq in Hc. subst c.
      rewrite IH. unfold snoc. now rewrite append_assoc.
    + rewrite Hc, IH. unfold snoc. now rewrite append_assoc.
Qed.

Lemma read_after_quote (field rest : string) :
  atDelimiter rest = true ->
  readFrom AfterQuote rows row field rest
  = readFrom InUnquoted rows row field rest.
Proof.
  destruct rest as [| c rest]; [reflexivity |]. simpl. intros H.
  now rewrite (delimiter_not_quote c H).
Qed.

Lemma read_start (rest : string) :
  startsWith rest DQUOTE = false ->
  readFrom FieldStart rows row EmptyString rest
  = readFrom InUnquoted rows row EmptyString rest.
Proof.
  destruct rest as [| c rest]; [reflexivity |]. simpl. now intros ->.
Qed.

(** Reading one written cell up to the delimiter behind it. *)
Lemma read_cell (cell rest : string) :
  atDelimiter rest = true ->
  readFrom FieldStart rows row EmptyString (cellToCSV cell +:+ rest)
  = readFrom InUnquoted rows row cell rest.
Proof.
  intros Hrest. rewrite cellToCSV_specCell. unfold specCell.
  rewrite hasSpecial_doubleQuotes.
  destruct (hasSpecial cell) eqn:Hs.
  - simpl. rewrite append_assoc. simpl.
    rewrite read_quoted. simpl. now apply read_after_quote.
  - rewrite (doubleQuotes_plain cell Hs), read_start.
    + now rewrite read_plain.
    + destruct cell as [| c cell]; simpl.
      * destruct rest as [| d rest]; [reflexivity |].
        now apply delimiter_not_quote.
      * simpl in Hs. apply orb_false_iff in Hs as [Hc _].
        now destruct (plain_char c Hc) as (_ & -> & _).
Qed.

End Reader.

(** Reading one written row: to the end of the text, and to the newline
    behind it. *)
Lemma read_row (cells : list string) :
  forall (cell : string) (rows : list (list string)) (row : list string),
    readFrom FieldStart rows row EmptyString (rowText (cell :: cells))
    = rows ++ [row ++ cell :: cells]
    /\ forall more,
         readFrom FieldStart rows row EmptyString
           (rowText (cell :: cells) +:+ String LF more)
         = readFrom FieldStart (rows ++ [row ++ cell :: cells]) []
             EmptyString more.
Proof.
  induction cells as [| c2 cells IH]; intros cell rows row.
  - unfold rowText. cbn [map join]. split.
    + rewrite <- (append_nil_r (cellToCSV cell)).
      now rewrite read_cell.
    + intros more. now rewrite read_cell.
  - assert (forall rest,
      readFrom FieldStart rows row EmptyString
        (rowText (cell :: c2 :: cells) +:+ rest)
      = readFrom FieldStart rows (row ++ [cell]) EmptyString
          (rowText (c2 :: cells) +:+ rest)) as Hstep.
    { intros rest. unfold rowText. cbn [map]. rewrite join_cons.
      rewrite !append_assoc. simpl. now rewrite read_cell. }
    destruct (IH c2 rows (row ++ [cell])) as [Hend Hmore].
    rewrite <- app_assoc in Hend, Hmore. simpl in Hend, Hmore.
    split.
    + rewrite <- (append_nil_r (rowText (cell :: c2 :: cells))).
      now rewrite Hstep, append_nil_r.
    + intros more. now rewrite Hstep.
Qed.

Lemma read_rows (rs : list (list string)) :
  forall (r : list string) (acc : list (list string)),
    r <> [] -> Forall (fun row => row <> []) rs ->
    readFrom FieldStart acc [] EmptyString (rowsToCSV (r :: rs)) = acc ++ r :: rs.
Proof.
  induction rs as [| r2 rs IH]; intros r acc Hr Hrs.
  - destruct r as [| cell cells]; [congruence |].
    apply (read_row cells cell acc []).
  - destruct r as [| cell cells]; [congruence |].
    inversion Hrs as [| ? ? Hr2 Hrs']; subst.
    change (rowsToCSV ((cell :: cells) :: r2 :: rs))
      with (rowText (cell :: cells)
              +:+ String LF EmptyString +:+ rowsToCSV (r2 :: rs)).
    simpl String.append.
    destruct (read_row cells cell acc []) as [_ Hmore].
    change (String.append (rowText (cell :: cells))
              (String LF (rowsToCSV (r2 :: rs))))
      with (rowText (cell :: cells) +:+ String LF (rowsToCSV (r2 :: rs))).
    rewrite Hmore. rewrite (IH r2 _ Hr2 Hrs').
    now rewrite <- app_assoc.
Qed.

(** C8, as stated, fails: a row without cells and a row of one empty cell
    are written alike, as the empty text, so no reader can recover both;
    the reader here answers with the row of one empty cell. *)
Lemma C8_empty_row_is_lost :
  rowsToCSV [[]] = rowsToCSV [[EmptyString]]
  /\ readCSV (rowsToCSV [[]]) <> [[]]
  /\ ~ exists reader : string -> list (list string),
         forall rows, reader (rowsToCSV rows) = rows.
Proof.
  split; [reflexivity |]. split; [discriminate |].
  intros (reader & H).
  pose proof (H [[]]) as H1. pose proof (H [[EmptyString]]) as H2.
  change (rowsToCSV [[EmptyString]]) with (rowsToCSV [[]]) in H2.
  rewrite H1 in H2. discriminate H2.
Qed.

(** C8, amended. For every list of rows that is not empty and whose rows
    each have a cell, reading back what [rowsToCSV] wrote gives the rows
    again, whatever commas, quotes and newlines the cells contain. *)
Theorem C8_round_trip (rows : list (list string)) :
  rows <> [] -> Forall (fun row => row <> []) rows ->
  readCSV (rowsToCSV rows) = rows.
Proof.
  intros Hne Hrows. destruct rows as [| r rs]; [congruence |].
  inversion Hrows as [| ? ? Hr Hrs]; subst.
  unfold readCSV. now rewrite read_rows.
Qed.

Lemma C8_witness :
  sampleRows <> []
  /\ Forall (fun row => row <> []) sampleRows
  /\ readCSV (rowsToCSV sampleRows) = sampleRows.
Proof.
  assert (sampleRows <> []) as Hne by discriminate.
  assert (Forall (fun row : list string => row <> []) sampleRows) as Hrows
    by (repeat constructor; discriminate).
  split; [exact Hne |]. split; [exact Hrows |].
  exact (C8_round_trip sampleRows Hne Hrows).
Defined.

(** What the tool hands to [rowsToCSV] is of that kind: every row the
    table parser returns has a cell. *)
Lemma parseMarkdownTable_rows (markdown : string) :
  Forall (fun row => row <> []) (parseMarkdownTable markdown).
Proof.
  unfold parseMarkdownTable.
  generalize (filter (fun line => isEmpty (trim line) = false)
                (split LF markdown)).
  intros lines.
  assert (forall acc, Forall (fun row : list string => row <> []) acc ->
            Forall (fun row => row <> []) (fold_left parseLine lines acc)) as H.
  { induction lines as [| line lines IH]; intros acc Hacc; [exact Hacc |].
    simpl. apply IH. unfold parseLine.
    destruct (matchesSeparator line); [exact Hacc |].
    destruct (startsWith line PIPE); [| exact Hacc].
    destruct (filter _ _) as [| cell cells]; [exact Hacc |].
    simpl. apply Forall_app. split; [exact Hacc |].
    constructor; [discriminate | constructor]. }
  apply H. constructor.
Qed.

(** * Further properties of the code *)

(** ** Splitting and trimming *)

Lemma split_nonempty (sep : ascii) (s : string) :
  exists h t, split sep s = h :: t.
Proof.
  induction s as [| c s (h & t & IH)]; simpl; [now eexists _, _ |].
  rewrite IH. destruct (Ascii.eqb c sep); now eexists _, _.
Qed.

Lemma split_append (sep : ascii) (a b : string) :
  split sep (a +:+ String sep b) = split sep a ++ split sep b.
Proof.
  induction a as [| c a IH]; simpl.
  - now rewrite Ascii.eqb_refl.
  - rewrite IH. destruct (Ascii.eqb c sep); [reflexivity |].
    now destruct (split_nonempty sep a) as (h & t & ->).
Qed.

Lemma split_plain (sep : ascii) (s : string) :
  includes s sep = false -> split sep s = [s].
Proof.
  induction s as [| c s IH]; simpl; [reflexivity |].
  intros H. apply orb_false_iff in H as [Hc Hs].
  now rewrite Hc, (IH Hs).
Qed.

(** A piece of a split holds only characters of the string, and none is
    the separator. *)
Lemma split_pieces (sep : ascii) (s : string) :
  Forall (fun piece =>
            includes piece sep = false
            /\ forall c, includes s c = false -> includes piece c = false)
    (split sep s).
Proof.
  induction s as [| d s IH]; simpl.
  - constructor; [now split | constructor].
  - destruct (Ascii.eqb d sep) eqn:Hd.
    + constructor; [now split |].
      eapply Forall_impl; [exact IH |]. simpl. intros piece [H1 H2].
      split; [exact H1 |]. intros c Hc.
      apply orb_false_iff in Hc as [_ Hc]. now apply H2.
    + destruct (split sep s) as [| h t]; [constructor; [| constructor] |].
      * simpl. rewrite Hd. split; [reflexivity |]. intros c Hc.
        apply orb_false_iff in Hc as [Hc _]. now rewrite Hc.
      * inversion IH as [| ? ? [H1 H2] Ht]; subst.
        constructor.
        -- simpl. rewrite Hd, H1. split; [reflexivity |]. intros c Hc.
           apply orb_false_iff in Hc as [Hc Hs]. now rewrite Hc, (H2 c Hs).
        -- eapply Forall_impl; [exact Ht |]. simpl. intros piece [H3 H4].
           split; [exact H3 |]. intros c Hc.
           apply orb_false_iff in Hc as [_ Hc]. now apply H4.
Qed.

Lemma includes_trimStart (s : string) (c : ascii) :
  includes s c = false -> includes (trimStart s) c = false.
Proof.
  induction s as [| d s IH]; simpl; [reflexivity |].
  intros H. destruct (isWhiteSpace d); [| exact H].
  apply orb_false_iff in H as [_ H]. now apply IH.
Qed.

Lemma includes_trimEnd (s : string) (c : ascii) :
  includes s c = false -> includes (trimEnd s) c = false.
Proof.
  induction s as [| d s IH]; simpl; [reflexivity |].
  intros H. apply orb_false_iff in H as [Hd Hs].
  destruct (isWhiteSpace d && isEmpty (trimEnd s)); [reflexivity |].
  simpl. now rewrite Hd, (IH Hs).
Qed.

Lemma includes_trim (s : string) (c : ascii) :
  includes s c = false -> includes (trim s) c = false.
Proof. intros H. now apply includes_trimEnd, includes_trimStart. Qed.

Lemma trimEnd_idempotent (s : string) : trimEnd (trimEnd s) = trimEnd s.
Proof.
  induction s as [| c s IH]; simpl; [reflexivity |].
  destruct (isWhiteSpace c && isEmpty (trimEnd s)) eqn:H; [reflexivity |].
  simpl. now rewrite IH, H.
Qed.

Lemma trimStart_trimEnd (s : string) :
  trimStart (trimEnd (trimStart s)) = trimEnd (trimStart s).
Proof.
  induction s as [| c s IH]; simpl; [reflexivity |].
  destruct (isWhiteSpace c) eqn:Hc; [exact IH |].
  simpl. rewrite Hc. simpl. now rewrite Hc.
Qed.

Lemma trim_idempotent (s : string) : trim (trim s) = trim s.
Proof.
  unfold trim. now rewrite trimStart_trimEnd, trimEnd_idempotent.
Qed.

(** ** The table parser *)

Lemma parseLine_acc (rows : list (list string)) (line : string) :
  parseLine rows line = rows ++ parseLine [] line.
Proof.
  unfold parseLine. destruct (matchesSeparator line); [now rewrite app_nil_r |].
  destruct (startsWith line PIPE); [| now rewrite app_nil_r].
  destruct (0 <? _); [reflexivity | now rewrite app_nil_r].
Qed.

Lemma parseLines_acc (lines : list string) (rows : list (list string)) :
  fold_left parseLine lines rows = rows ++ fold_left parseLine lines [].
Proof.
  revert rows. induction lines as [| line lines IH]; intros rows; simpl.
  - now rewrite app_nil_r.
  - rewrite IH, (IH (parseLine [] line)), (parseLine_acc rows line).
    now rewrite app_assoc.
Qed.

Lemma parse_rows_clean (markdown : string) :
  Forall (fun row => row <> [] /\ Forall cleanCell row)
    (parseMarkdownTable markdown).
Proof.
  unfold parseMarkdownTable.
  assert (Forall (fun line => includes line LF = false)
            (filter (fun line => isEmpty (trim line) = false)
               (split LF markdown))) as Hlines.
  { apply Forall_forall. intros line Hin.
    apply list_elem_of_filter in Hin as [_ Hin].
    pose proof (split_pieces LF markdown) as H.
    rewrite Forall_forall in H. exact (proj1 (H line Hin)). }
  revert Hlines.
  generalize (filter (fun line => isEmpty (trim line) = false)
                (split LF markdown)).
  intros lines Hlines.
  assert (forall acc,
            Forall (fun row => row <> [] /\ Forall cleanCell row) acc ->
            Forall (fun row => row <> [] /\ Forall cleanCell row)
              (fold_left parseLine lines acc)) as H; [| apply H; constructor].
  induction lines as [| line lines IH]; intros acc Hacc; [exact Hacc |].
  inversion Hlines as [| ? ? Hline Hrest]; subst.
  simpl. apply (IH Hrest). unfold parseLine.
  destruct (matchesSeparator line); [exact Hacc |].
  destruct (startsWith line PIPE); [| exact Hacc].
  destruct (filter _ _) as [| cell cells] eqn:Hcells; [exact Hacc |].
  simpl. apply Forall_app. split; [exact Hacc |].
  constructor; [| constructor]. split; [discriminate |].
  rewrite <- Hcells. apply Forall_forall. intros c Hc.
  apply list_elem_of_filter in Hc as [Hne Hc].
  apply list_elem_of_fmap in Hc as (piece & -> & Hpiece).
  pose proof (split_pieces PIPE line) as Hp. rewrite Forall_forall in Hp.
  destruct (Hp piece Hpiece) as [Hpipe Hsub].
  repeat split.
  - intros Heq. now rewrite Heq in Hne.
  - apply trim_idempotent.
  - now apply includes_trim.
  - apply includes_trim. now apply Hsub.
Qed.

(** X1. Every row the table parser returns has at least one cell, and
    every cell is clean: not empty, free of white space at both ends, and
    free of pipes and newlines. *)
Theorem parseMarkdownTable_cells_clean (markdown : string) :
  Forall (fun row => row <> [] /\ Forall cleanCell row)
    (parseMarkdownTable markdown).
Proof. exact (parse_rows_clean markdown). Qed.

(** X2. The parser works line by line: the parse of two texts put
    together with a newline between them is the parse of the first followed
    by the parse of the second. *)
Theorem parseMarkdownTable_append (a b : string) :
  parseMarkdownTable (a +:+ String LF b)
  = parseMarkdownTable a ++ parseMarkdownTable b.
Proof.
  unfold parseMarkdownTable.
  rewrite split_append, filter_app, fold_left_app.
  now rewrite parseLines_acc.
Qed.

(** X3. A text none of whose lines starts with a pipe parses to no row at
    all; so does, in particular, a text without any pipe, and a table whose
    lines are indented. *)
Theorem parseMarkdownTable_needs_leading_pipe (markdown : string) :
  (Forall (fun line => startsWith line PIPE = false) (split LF markdown) ->
   parseMarkdownTable markdown = [])
  /\ (includes markdown PIPE = false -> parseMarkdownTable markdown = []).
Proof.
  assert (Forall (fun line => startsWith line PIPE = false) (split LF markdown) ->
          parseMarkdownTable markdown = []) as Hmain.
  { intros Hlines. unfold parseMarkdownTable.
    assert (Forall (fun line => startsWith line PIPE = false)
              (filter (fun line => isEmpty (trim line) = false)
                 (split LF markdown))) as Hkept.
    { apply Forall_forall. intros line Hin.
      apply list_elem_of_filter in Hin as [_ Hin].
      rewrite Forall_forall in Hlines. now apply Hlines. }
    revert Hkept.
    generalize (filter (fun line => isEmpty (trim line) = false)
                  (split LF markdown)).
    intros lines Hkept.
    induction lines as [| line lines IH]; [reflexivity |].
    inversion Hkept as [| ? ? Hline Hrest]; subst. simpl.
    assert (parseLine [] line = []) as ->; [| exact (IH Hrest)].
    unfold parseLine. rewrite Hline.
    destruct line as [| c line]; [reflexivity |].
    simpl in Hline. simpl. now rewrite Hline. }
  split; [exact Hmain |].
  intros Hno. apply Hmain.
  pose proof (split_pieces LF markdown) as Hp.
  eapply Forall_impl; [exact Hp |]. simpl. intros line [_ Hsub].
  specialize (Hsub PIPE Hno).
  destruct line as [| c line]; [reflexivity |].
  simpl in Hsub. simpl. now apply orb_false_iff in Hsub as [-> _].
Qed.

Lemma parseMarkdownTable_needs_leading_pipe_witness :
  Forall (fun line => startsWith line PIPE = false)
    (split LF (" | a | b |" +:+ String LF "x | y"))
  /\ parseMarkdownTable (" | a | b |" +:+ String LF "x | y") = [].
Proof.
  assert (Forall (fun line => startsWith line PIPE = false)
            (split LF (" | a | b |" +:+ String LF "x | y"))) as H
    by (repeat constructor).
  split; [exact H |].
  exact (proj1 (parseMarkdownTable_needs_leading_pipe _) H).
Defined.

(** ** The CSV writer *)

(** X4. On lists of rows that are not empty and whose rows each have a
    cell, [rowsToCSV] is injective: two such tables with the same CSV text
    are the same table. Comparing CSV texts, as the sync loop does, is then
    comparing the tables. *)
Theorem rowsToCSV_injective (rows1 rows2 : list (list string)) :
  rows1 <> [] -> Forall (fun row => row <> []) rows1 ->
  rows2 <> [] -> Forall (fun row => row <> []) rows2 ->
  rowsToCSV rows1 = rowsToCSV rows2 -> rows1 = rows2.
Proof.
  intros Hne1 H1 Hne2 H2 Heq.
  destruct rows1 as [| r1 rs1]; [congruence |].
  destruct rows2 as [| r2 rs2]; [congruence |].
  inversion H1 as [| ? ? Hr1 Hrs1]; subst.
  inversion H2 as [| ? ? Hr2 Hrs2]; subst.
  pose proof (read_rows rs1 r1 [] Hr1 Hrs1) as E1.
  pose proof (read_rows rs2 r2 [] Hr2 Hrs2) as E2.
  rewrite Heq in E1. rewrite E1 in E2. exact E2.
Qed.

Lemma rowsToCSV_injective_witness :
  sampleRows <> []
  /\ Forall (fun row => row <> []) sampleRows
  /\ rowsToCSV sampleRows = rowsToCSV sampleRows
  /\ sampleRows = sampleRows.
Proof.
  assert (sampleRows <> []) as Hne by discriminate.
  assert (Forall (fun row : list string => row <> []) sampleRows) as Hrows
    by (repeat constructor; discriminate).
  split; [exact Hne |]. split; [exact Hrows |]. split; [reflexivity |].
  exact (rowsToCSV_injective sampleRows sampleRows Hne Hrows Hne Hrows eq_refl).
Defined.

Lemma includes_append (a b : string) (c : ascii) :
  includes (a +:+ b) c = includes a c || includes b c.
Proof.
  induction a as [| d a IH]; simpl; [reflexivity |].
  now rewrite IH, orb_assoc.
Qed.

Lemma includes_doubleQuotes_LF (s : string) :
  includes (doubleQuotes s) LF = includes s LF.
Proof.
  induction s as [| c s IH]; simpl; [reflexivity |].
  destruct (Ascii.eqb c DQUOTE) eqn:Hc; simpl.
  - apply Ascii.eqb_eq in Hc. subst c. simpl. exact IH.
  - now rewrite IH.
Qed.

Lemma includes_cellToCSV_LF (cell : string) :
  includes (cellToCSV cell) LF = includes cell LF.
Proof.
  rewrite cellToCSV_specCell. unfold specCell.
  destruct (hasSpecial (doubleQuotes cell)); simpl.
  - rewrite includes_append, includes_doubleQuotes_LF. simpl.
    now rewrite orb_false_r.
  - apply includes_doubleQuotes_LF.
Qed.

Lemma includes_join (sep : ascii) (c : ascii) (pieces : list string) :
  Ascii.eqb sep c = false ->
  Forall (fun piece => includes piece c = false) pieces ->
  includes (join (String sep EmptyString) pieces) c = false.
Proof.
  intros Hsep. induction pieces as [| x pieces IH]; intros H; [reflexivity |].
  inversion H as [| ? ? Hx Hrest]; subst.
  destruct pieces as [| y pieces]; [exact Hx |].
  rewrite join_cons, !includes_append, Hx, (IH Hrest). simpl.
  now rewrite Hsep.
Qed.

Lemma split_join (sep : ascii) (pieces : list string) :
  pieces <> [] ->
  Forall (fun piece => includes piece sep = false) pieces ->
  split sep (join (String sep EmptyString) pieces) = pieces.
Proof.
  induction pieces as [| x pieces IH]; intros Hne H; [congruence |].
  inversion H as [| ? ? Hx Hrest]; subst.
  destruct pieces as [| y pieces]; [now apply split_plain |].
  rewrite join_cons.
  change (String sep EmptyString +:+ join (String sep EmptyString) (y :: pieces))
    with (String sep (join (String sep EmptyString) (y :: pieces))).
  rewrite split_append, (split_plain sep x Hx), IH;
    [reflexivity | discriminate | exact Hrest].
Qed.

Lemma cellToCSV_not_empty (cell : string) :
  cell <> EmptyString -> cellToCSV cell <> EmptyString.
Proof.
  intros Hne. rewrite cellToCSV_specCell. unfold specCell.
  destruct (hasSpecial (doubleQuotes cell)); [discriminate |].
  destruct cell as [| c cell]; [congruence |]. simpl.
  destruct (Ascii.eqb c DQUOTE); discriminate.
Qed.

Lemma rowText_clean (row : list string) :
  row <> [] -> Forall cleanCell row ->
  includes (rowText row) LF = false /\ rowText row <> EmptyString.
Proof.
  intros Hne Hrow. split.
  - unfold rowText. apply includes_join; [reflexivity |].
    apply Forall_forall. intros piece Hin.
    apply list_elem_of_fmap in Hin as (cell & -> & Hcell).
    rewrite Forall_forall in Hrow. destruct (Hrow cell Hcell) as (_ & _ & _ & Hlf).
    now rewrite includes_cellToCSV_LF.
  - destruct row as [| cell cells]; [congruence |].
    inversion Hrow as [| ? ? (Hcell & _) _]; subst.
    pose proof (cellToCSV_not_empty cell Hcell) as Hc.
    unfold rowText. cbn [map]. destruct (map cellToCSV cells) as [| y l].
    + exact Hc.
    + rewrite join_cons. destruct (cellToCSV cell); [congruence | discriminate].
Qed.

(** The CSV of rows with clean cells, line by line. *)
Lemma clean_rows_csv (rows : list (list string)) :
  rows <> [] ->
  Forall (fun row => row <> [] /\ Forall cleanCell row) rows ->
  split LF (rowsToCSV rows) = map rowText rows
  /\ Forall (fun line => line <> EmptyString) (split LF (rowsToCSV rows))
  /\ rowsToCSV rows <> EmptyString.
Proof.
  intros Hne Hclean.
  assert (Forall (fun text => includes text LF = false /\ text <> EmptyString)
            (map rowText rows)) as Htexts.
  { apply Forall_forall. intros text Hin.
    apply list_elem_of_fmap in Hin as (row & -> & Hrow).
    rewrite Forall_forall in Hclean. destruct (Hclean row Hrow) as [Hr Hc].
    now apply rowText_clean. }
  assert (split LF (rowsToCSV rows) = map rowText rows) as Hsplit.
  { unfold rowsToCSV. apply split_join.
    - destruct rows; [congruence | discriminate].
    - eapply Forall_impl; [exact Htexts |]. now intros text [H _]. }
  split; [exact Hsplit |]. split.
  - rewrite Hsplit. eapply Forall_impl; [exact Htexts |]. now intros text [_ H].
  - intros Hempty. rewrite Hempty in Hsplit.
    destruct rows as [| row rows']; [congruence |].
    inversion Htexts as [| ? ? [_ Hrow] _]; subst.
    simpl in Hsplit. injection Hsplit as Hsplit _. congruence.
Qed.

(** X5. The CSV of a parsed table has one line per row: splitting the
    text [rowsToCSV] writes for the rows of [parseMarkdownTable] at the
    newlines gives back the rows' texts, none of them empty, so the
    snapshot of a table with a row is never the empty text and its first
    line is the header row. *)
Theorem rowsToCSV_of_parse_lines (markdown : string) :
  parseMarkdownTable markdown <> [] ->
  let rows := parseMarkdownTable markdown in
  split LF (rowsToCSV rows) = map rowText rows
  /\ length (split LF (rowsToCSV rows)) = length rows
  /\ Forall (fun line => line <> EmptyString) (split LF (rowsToCSV rows))
  /\ rowsToCSV rows <> EmptyString.
Proof.
  intros Hne rows.
  destruct (clean_rows_csv rows Hne (parse_rows_clean markdown))
    as (Hsplit & Hlines & Htext).
  split; [exact Hsplit |]. split; [now rewrite Hsplit, length_map |].
  now split.
Qed.

Lemma rowsToCSV_of_parse_lines_witness :
  parseMarkdownTable sampleTable <> []
  /\ split LF (rowsToCSV (parseMarkdownTable sampleTable))
     = map rowText (parseMarkdownTable sampleTable).
Proof.
  assert (parseMarkdownTable sampleTable <> []) as Hne
    by (vm_compute; discriminate).
  split; [exact Hne |].
  exact (proj1 (rowsToCSV_of_parse_lines sampleTable Hne)).
Defined.

(** ** The file system helpers and the pipeline *)



(** X8. The pipeline gives rows only along one path: the response has a
    success status, its body can be read, the decoder gives a text and the
    model answers the prompt made from that text; the rows are then the
    parse of the answer. A response with a failure status throws before its
    body is looked at, whatever the body and the other collaborators are. *)
Theorem pipeline_success_path (env : Env) (url : string)
  (rows : list (list string)) :
  (pipeline env url = Ok rows
   <-> exists response body text answer,
         fetch env url = Ok response /\ ok response = true
         /\ arrayBuffer response = Ok body
         /\ pdfParse env body = Ok text
         /\ generateText env (promptFor text) = Ok answer
         /\ rows = parseMarkdownTable answer)
  /\ (forall response,
        fetch env url = Ok response -> ok response = false ->
        exists e, pipeline env url = Throw e
                  /\ errorMessage e
                     = "Failed to download PDF from " +:+ url +:+ ": "
                         +:+ statusText response).
Proof.
  unfold pipeline, downloadPDF, extractTextFromPDF, callLLM.
  split; [split |].
  - destruct (fetch env url) as [response |]; [| discriminate].
    destruct (ok response) eqn:Hok; cbn [negb]; [| discriminate].
    destruct (arrayBuffer response) as [body |] eqn:Hb; [| discriminate].
    destruct (pdfParse env body) as [text |] eqn:Ht; [| discriminate].
    fold (promptFor text).
    destruct (generateText env (promptFor text)) as [answer |] eqn:Ha;
      [| discriminate].
    intros [= <-]. now exists response, body, text, answer.
  - intros (response & body & text & answer & -> & -> & -> & Ht & Ha & ->).
    cbn [negb]. rewrite Ht. fold (promptFor text). now rewrite Ha.
  - intros response -> ->. cbn [negb]. now eexists.
Qed.

(** ** A run, as a whole *)

Lemma execute_cases (env : Env) (fs : FS) :
  execute env fs
  = if dirExists env fs then executeIn env (outputDirOf env) fs
    else match mkdirError env (outputDirOf env) with
         | Some e => (fs, Thrown e)
         | None =>
             executeIn env (outputDirOf env)
               {| files := files fs; dirs := {[outputDirOf env]} ∪ dirs fs |}
         end.
Proof.
  unfold execute. unfold bind at 1.
  unfold ensureOutputDir, bind, tryCatch, fs_access, fs_mkdir, ret.
  fold (outputDirOf env). fold (dirExists env fs).
  destruct (dirExists env fs); [reflexivity |].
  destruct (mkdirError env (outputDirOf env)); reflexivity.
Qed.

Lemma executeIn_cases (env : Env) (fs1 : FS) :
  executeIn env (outputDirOf env) fs1
  = match writeFileError env (statusPath (outputDirOf env)) with
    | Some e => (disk (loopEnd env fs1), Thrown e)
    | None =>
        (with_files
           (<[statusPath (outputDirOf env) := statusOf env (loopEnd env fs1)]>
              (files (disk (loopEnd env fs1))))
           (disk (loopEnd env fs1)),
         Normal (resultOf (loopEnd env fs1)))
    end.
Proof.
  unfold executeIn, syncLoop. rewrite forOf_loopBody. unfold loopEnd.
  generalize (fold_left (step env (outputDirOf env)) MANUFACTURER_POLICIES
                (initialAcc fs1)).
  intros a. unfold bind, writeLastRunStatus, fs_writeFile, ret.
  destruct (writeFileError env (statusPath (outputDirOf env))); reflexivity.
Qed.








Lemma pipeline_parsed (env : Env) (url : string) (rows : list (list string)) :
  pipeline env url = Ok rows -> exists answer, rows = parseMarkdownTable answer.
Proof.
  unfold pipeline.
  destruct (downloadPDF env url) as [b |]; [| discriminate].
  destruct (extractTextFromPDF env b) as [t |]; [| discriminate].
  destruct (callLLM env t) as [answer |]; [| discriminate].
  intros [= <-]. now exists answer.
Qed.

Lemma differs_false_inv (old : option string) (csv : string) :
  differs old csv = false -> old = Some csv.
Proof.
  destruct old as [s |]; [| discriminate]. simpl. intros H.
  apply negb_false_iff in H. apply String.eqb_eq in H. now subst.
Qed.

(** X11. After a run that returns, the snapshot of every manufacturer
    whose pipeline gave at least one row, and whose snapshot can be written,
    holds the CSV of exactly those rows, whether this run wrote it or found
    it there; that CSV is never the empty text. *)
Theorem snapshot_holds_latest_table (env : Env) (fs : FS) :
  canRun env fs = true ->
  exists fs' r,
    execute env fs = (fs', Normal r)
    /\ forall (k u : string) (rows : list (list string)),
         (k, u) ∈ MANUFACTURER_POLICIES ->
         pipeline env u = Ok rows -> rows <> [] ->
         writeFileError env (csvPath (outputDirOf env) k) = None ->
         files fs' !! csvPath (outputDirOf env) k = Some (rowsToCSV rows)
         /\ rowsToCSV rows <> EmptyString.
Proof.
  intros Hrun. destruct (canRun_returns env fs Hrun) as (fs1 & Hf & Hex).
  eexists _, _. split; [exact Hex |].
  intros k u rows Hin Hp Hne Hw. split.
  - cbn [files with_files].
    rewrite lookup_insert_ne by apply not_eq_sym, csvPath_not_status.
    pose proof (loopEnd_file env fs1 (k, u) Hin) as Hfile.
    change ((k, u).1) with k in Hfile. rewrite Hfile.
    unfold fileAfter. change ((k, u).2) with u. change ((k, u).1) with k.
    rewrite Hp, (nonempty_rows _ rows Hne), Hw.
    destruct (differs _ _) eqn:Hd; [reflexivity |].
    now apply differs_false_inv.
  - destruct (pipeline_parsed env u rows Hp) as (answer & ->).
    now destruct (clean_rows_csv _ Hne (parse_rows_clean answer)) as (_ & _ & H).
Qed.

Lemma snapshot_holds_latest_table_witness :
  canRun sampleEnv sampleDisk = true
  /\ exists fs' r,
       execute sampleEnv sampleDisk = (fs', Normal r)
       /\ files fs' !! csvPath (outputDirOf sampleEnv) "abbvie"
          = Some (rowsToCSV (parseMarkdownTable sampleTable)).
Proof.
  split; [vm_compute; reflexivity |].
  destruct (snapshot_holds_latest_table sampleEnv sampleDisk)
    as (fs' & r & Hex & H); [vm_compute; reflexivity |].
  exists fs', r. split; [exact Hex |].
  apply (H "abbvie" "https://340besp.com/resources/abbvie/policy.pdf").
  - vm_compute. left.
  - vm_compute. reflexivity.
  - vm_compute. discriminate.
  - reflexivity.
Defined.

Lemma step_last_detail (env : Env) (dir : string) (a : Acc) (k u : string) :
  exists d,
    last (details (step env dir a (k, u))) = Some d
    /\ ManufacturerDetail.id d = k
    /\ ManufacturerDetail.name d = None
    /\ ManufacturerDetail.rulesCount d = rulesCountOf (pipeline env u)
    /\ (ManufacturerDetail.error d = None ->
        is_Some (ManufacturerDetail.rulesCount d)).
Proof.
  unfold step, rulesCountOf.
  destruct (pipeline env u) as [rows | x].
  - destruct rows as [| row rows].
    + simpl. eexists. rewrite last_snoc. repeat split. discriminate.
    + rewrite (nonempty_rows _ (row :: rows)) by discriminate.
      destruct (differs _ _).
      * destruct (writeFileError env _); cbn [push_detail details];
          eexists; rewrite last_snoc; repeat split; intros _; now eexists.
      * cbn [push_detail details]. eexists. rewrite last_snoc.
        repeat split. intros _. now eexists.
  - simpl. eexists. rewrite last_snoc. repeat split. discriminate.
Qed.

(** X12. In the result of a run the detail of a manufacturer never has a
    [name]; it has a [rulesCount] exactly when the parse gave at least one
    row, and this is then the number of rows less one, which is not
    negative; and a detail without an error always has a [rulesCount]. *)
Theorem details_rulesCount (env : Env) (fs : FS) :
  canRun env fs = true ->
  exists fs' r,
    execute env fs = (fs', Normal r)
    /\ forall (i : nat) (k u : string),
         MANUFACTURER_POLICIES !! i = Some (k, u) ->
         exists d,
           SyncResult.details r !! i = Some d
           /\ ManufacturerDetail.id d = k
           /\ ManufacturerDetail.name d = None
           /\ ManufacturerDetail.rulesCount d = rulesCountOf (pipeline env u)
           /\ (forall n, ManufacturerDetail.rulesCount d = Some n -> 0 <= n)
           /\ (ManufacturerDetail.error d = None ->
               is_Some (ManufacturerDetail.rulesCount d)).
Proof.
  intros Hrun. destruct (canRun_returns env fs Hrun) as (fs1 & Hf & Hex).
  eexists _, _. split; [exact Hex |].
  intros i k u Hi. cbn [SyncResult.details resultOf].
  rewrite (loopEnd_detail env fs1 i (k, u) Hi).
  destruct (step_last_detail env (outputDirOf env)
              (fold_left (step env (outputDirOf env))
                 (take i MANUFACTURER_POLICIES) (initialAcc fs1)) k u)
    as (d & -> & Hid & Hname & Hrc & Herr).
  exists d. repeat split; try assumption.
  intros n Hn. rewrite Hrc in Hn. unfold rulesCountOf in Hn.
  destruct (pipeline env u) as [[| row rows] | x]; try discriminate.
  injection Hn as <-. cbn [length]. lia.
Qed.

Lemma details_rulesCount_witness :
  canRun sampleEnv emptyDisk = true
  /\ exists fs' r d,
       execute sampleEnv emptyDisk = (fs', Normal r)
       /\ SyncResult.details r !! 0%nat = Some d
       /\ ManufacturerDetail.rulesCount d = Some 2.
Proof.
  split; [vm_compute; reflexivity |].
  destruct (details_rulesCount sampleEnv emptyDisk)
    as (fs' & r & Hex & H); [vm_compute; reflexivity |].
  destruct (H 0%nat "abbvie" "https://340besp.com/resources/abbvie/policy.pdf")
    as (d & Hd & _ & _ & Hrc & _); [vm_compute; reflexivity |].
  exists fs', r, d. split; [exact Hex |]. split; [exact Hd |].
  rewrite Hrc. vm_compute. reflexivity.
Defined.

Lemma not_in_updatedIds (ds : list ManufacturerDetail.t) (i : nat)
  (d : ManufacturerDetail.t) :
  NoDup (map ManufacturerDetail.id ds) -> ds !! i = Some d ->
  ManufacturerDetail.updated d = false ->
  ManufacturerDetail.id d ∉ updatedIds ds.
Proof.
  intros Hnd Hi Hu Hin. unfold updatedIds in Hin.
  apply list_elem_of_fmap in Hin as (d' & Hid & Hd').
  apply list_elem_of_filter in Hd' as [Hu' Hd'].
  apply list_elem_of_lookup in Hd' as (j & Hj).
  assert (i = j) as ->.
  { apply (NoDup_lookup (map ManufacturerDetail.id ds) i j
             (ManufacturerDetail.id d)); [exact Hnd | |].
    - change (map ManufacturerDetail.id ds) with (ManufacturerDetail.id <$> ds).
      now rewrite list_lookup_fmap, Hi.
    - change (map ManufacturerDetail.id ds) with (ManufacturerDetail.id <$> ds).
      now rewrite list_lookup_fmap, Hj, Hid. }
  congruence.
Qed.

Lemma loopEnd_ids_NoDup (env : Env) (fs : FS) :
  NoDup (map ManufacturerDetail.id (details (loopEnd env fs))).
Proof. rewrite loopEnd_ids. exact registry_keys_NoDup. Qed.

(** X13. A manufacturer whose pipeline gives at least one row and whose
    CSV is what its snapshot already holds: its iteration attempts no write
    (so none can fail), adds one to [unchangedCount] and nothing to the
    updates; in the result its detail has [updated = false], a [rulesCount]
    and no error, the snapshot is as it was, and the id is not in the
    updates of the run. *)
Theorem equal_snapshot_is_left_alone (env : Env) (fs : FS) :
  canRun env fs = true ->
  (forall (a : Acc) (k u : string) (rows : list (list string)),
     pipeline env u = Ok rows -> rows <> [] ->
     files (disk a) !! csvPath (outputDirOf env) k = Some (rowsToCSV rows) ->
     let '(a', c) := loopBody env (outputDirOf env) (k, u) a in
     details a'
     = details a
         ++ [ManufacturerDetail.mk k false None
               (Some (Z.of_nat (length rows) - 1)) None]
     /\ disk a' = disk a
     /\ unchangedCount a' = unchangedCount a + 1
     /\ updatedCount a' = updatedCount a
     /\ updatedManufacturers a' = updatedManufacturers a
     /\ c = Normal tt)
  /\ exists fs' r,
       execute env fs = (fs', Normal r)
       /\ forall (i : nat) (k u : string) (rows : list (list string)),
            MANUFACTURER_POLICIES !! i = Some (k, u) ->
            pipeline env u = Ok rows -> rows <> [] ->
            files fs !! csvPath (outputDirOf env) k = Some (rowsToCSV rows) ->
            SyncResult.details r !! i
            = Some (ManufacturerDetail.mk k false None
                      (Some (Z.of_nat (length rows) - 1)) None)
            /\ files fs' !! csvPath (outputDirOf env) k
               = Some (rowsToCSV rows)
            /\ k ∉ updatedIds (SyncResult.details r).
Proof.
  intros Hrun. split.
  - intros a k u rows Hp Hne Hold.
    rewrite loopBody_step. cbn [fst snd]. unfold isEmptyTable, step.
    rewrite Hp, (nonempty_rows _ rows Hne), Hold, differs_false.
    destruct a. repeat split.
  - destruct (canRun_returns env fs Hrun) as (fs1 & Hf & Hex).
    eexists _, _. split; [exact Hex |].
    intros i k u rows Hi Hp Hne Hold. cbn [SyncResult.details resultOf].
    assert (details (loopEnd env fs1) !! i
            = Some (ManufacturerDetail.mk k false None
                      (Some (Z.of_nat (length rows) - 1)) None)) as Hd.
    { rewrite (loopEnd_detail env fs1 i (k, u) Hi).
      unfold step at 1. rewrite Hp, (nonempty_rows _ rows Hne).
      pose proof (before_entry_file env fs1 i (k, u) Hi) as Hb.
      change ((k, u).1) with k in Hb.
      rewrite Hb, Hf, Hold, differs_false. cbn [push_detail details].
      now rewrite last_snoc. }
    split; [exact Hd |]. split.
    + cbn [files with_files].
      rewrite lookup_insert_ne by apply not_eq_sym, csvPath_not_status.
      assert ((k, u) ∈ MANUFACTURER_POLICIES) as Hin
        by (apply list_elem_of_lookup; now exists i).
      pose proof (loopEnd_file env fs1 (k, u) Hin) as Hfile.
      change ((k, u).1) with k in Hfile. rewrite Hfile, Hf. unfold fileAfter.
      change ((k, u).2) with u.
      now rewrite Hp, (nonempty_rows _ rows Hne), Hold, differs_false.
    + exact (not_in_updatedIds _ i _ (loopEnd_ids_NoDup env fs1) Hd eq_refl).
Qed.

Lemma equal_snapshot_is_left_alone_witness :
  canRun sampleEnv sampleDisk = true
  /\ exists fs' r,
       execute sampleEnv sampleDisk = (fs', Normal r)
       /\ SyncResult.details r !! 0%nat
          = Some (ManufacturerDetail.mk "abbvie" false None (Some 2) None).
Proof.
  split; [vm_compute; reflexivity |].
  destruct (equal_snapshot_is_left_alone sampleEnv sampleDisk)
    as (_ & fs' & r & Hex & H); [vm_compute; reflexivity |].
  exists fs', r. split; [exact Hex |].
  destruct (H 0%nat "abbvie" "https://340besp.com/resources/abbvie/policy.pdf"
              (parseMarkdownTable sampleTable)) as (Hd & _).
  - vm_compute; reflexivity.
  - vm_compute; reflexivity.
  - vm_compute; discriminate.
  - vm_compute; reflexivity.
  - exact Hd.
Defined.



Lemma step_unchanged_mono (env : Env) (dir : string) (a : Acc)
  (e : string * string) :
  unchangedCount a <= unchangedCount (step env dir a e).
Proof.
  destruct e as [k u]. unfold step.
  destruct (pipeline env u) as [rows | x]; [| simpl; lia].
  destruct (Z.of_nat (length rows) =? 0); [simpl; lia |].
  destruct (differs _ _); [| simpl; lia].
  destruct (writeFileError env _); simpl; lia.
Qed.

Lemma fold_unchanged_mono (env : Env) (dir : string)
  (es : list (string * string)) (a : Acc) :
  unchangedCount a <= unchangedCount (fold_left (step env dir) es a).
Proof.
  revert a. induction es as [| e es IH]; intros a; simpl; [lia |].
  pose proof (step_unchanged_mono env dir a e). specialize (IH (step env dir a e)).
  lia.
Qed.

(** X15. The [updates] written to the status file are a selection of the
    keys of the registry, in the order of the registry and without
    repetition. The two counters of the result are not negative, [updated]
    is the number of these updates, and together the counters never exceed
    [totalManufacturers]. *)
Theorem status_updates_are_registry_keys (env : Env) (fs : FS) :
  canRun env fs = true ->
  exists fs' r updates,
    execute env fs = (fs', Normal r)
    /\ files fs' !! statusPath (outputDirOf env)
       = Some (JSON_stringify (LastRunStatus.mk (now env) updates))
    /\ updates `sublist_of` map fst MANUFACTURER_POLICIES
    /\ NoDup updates
    /\ SyncResult.updated r = Z.of_nat (length updates)
    /\ 0 <= SyncResult.unchanged r
    /\ SyncResult.updated r + SyncResult.unchanged r
       <= SyncResult.totalManufacturers r.
Proof.
  intros Hrun. destruct (canRun_returns env fs Hrun) as (fs1 & Hf & Hex).
  destruct (loopEnd_coherent env fs1) as [Hids Hc Herr].
  pose proof (loopEnd_ids env fs1) as Hkeys.
  pose proof (fold_counts env (outputDirOf env) MANUFACTURER_POLICIES
                (initialAcc fs1)) as Hsum.
  pose proof (fold_unchanged_mono env (outputDirOf env) MANUFACTURER_POLICIES
                (initialAcc fs1)) as Hmono.
  fold (loopEnd env fs1) in Hsum, Hmono.
  assert (0 <= emptyTables env MANUFACTURER_POLICIES) as Hempty
    by (unfold emptyTables; lia).
  assert (updatedManufacturers (loopEnd env fs1)
            `sublist_of` map fst MANUFACTURER_POLICIES) as Hsub.
  { rewrite Hids, <- Hkeys. unfold updatedIds.
    apply fmap_sublist, sublist_filter. }
  revert Hex Hids Hc Hsum Hmono Hsub. generalize (loopEnd env fs1).
  intros a Hex Hids Hc Hsum Hmono Hsub.
  exists (with_files
            (<[statusPath (outputDirOf env) := statusOf env a]> (files (disk a)))
            (disk a)), (resultOf a), (updatedManufacturers a).
  split; [exact Hex |]. split.
  { cbn [files with_files]. now rewrite lookup_insert_eq. }
  split; [exact Hsub |].
  split; [exact (sublist_NoDup _ _ registry_keys_NoDup Hsub) |].
  cbn [resultOf SyncResult.updated SyncResult.unchanged
       SyncResult.totalManufacturers initialAcc updatedCount unchangedCount]
    in *.
  rewrite length_map. split; [exact Hc |]. split; lia.
Qed.

Lemma status_updates_are_registry_keys_witness :
  canRun sampleEnv emptyDisk = true
  /\ exists fs' r updates,
       execute sampleEnv emptyDisk = (fs', Normal r)
       /\ updates `sublist_of` map fst MANUFACTURER_POLICIES
       /\ NoDup updates.
Proof.
  split; [vm_compute; reflexivity |].
  destruct (status_updates_are_registry_keys sampleEnv emptyDisk)
    as (fs' & r & updates & Hex & _ & Hsub & Hnd & _); [vm_compute; reflexivity |].
  now exists fs', r, updates.
Defined.

(** ** The weather conditions *)

Lemma conditions_outside (code : Z) :
  code < 0 \/ 99 < code ->
  WeatherWorkflow.conditions !! code = None
  /\ WeatherTool.conditions !! code = None.
Proof.
  intros Hcode. split; apply not_elem_of_list_to_map_1; cbn [fmap list_fmap fst];
    intros Hin;
    repeat (apply elem_of_cons in Hin as [Hin | Hin]; [lia |]);
    now apply elem_of_nil in Hin.
Qed.

Lemma conditions_inside (n : nat) :
  (n < 100)%nat -> conditionsAgreeAt (Z.of_nat n) = true.
Proof.
  intros Hn.
  assert (forallb (fun m => conditionsAgreeAt (Z.of_nat m)) (seq 0 100) = true)
    as Hall by (vm_compute; reflexivity).
  rewrite forallb_forall in Hall. apply Hall. apply in_seq. lia.
Qed.

Lemma conditionsAgreeAt_all (code : Z) : conditionsAgreeAt code = true.
Proof.
  destruct (decide (0 <= code <= 99)) as [Hin | Hout].
  - rewrite <- (Z2Nat.id code) by lia. apply conditions_inside. lia.
  - destruct (conditions_outside code) as [Hw Ht]; [lia |].
    unfold conditionsAgreeAt, WeatherWorkflow.getWeatherCondition,
      WeatherTool.getWeatherCondition. rewrite Hw, Ht. cbn [orUnknown].
    assert (bool_decide (code ∈ toolOnlyCodes) = false) as ->; [| reflexivity].
    apply bool_decide_eq_false. unfold toolOnlyCodes. intros Hin.
    repeat (apply elem_of_cons in Hin as [Hin | Hin]; [lia |]).
    now apply elem_of_nil in Hin.
Qed.

(** X16. The table of the weather tool extends the table of the weather
    workflow: wherever the workflow names a condition the tool names the
    same one. The two functions differ on twelve codes exactly (the
    freezing, shower, snow grain and hail codes), which the workflow
    answers with "Unknown". Neither ever answers with the empty string, and
    both answer "Unknown" for a code below 0 or above 99. *)
Theorem weather_tool_extends_workflow (code : Z) :
  (WeatherWorkflow.getWeatherCondition code = "Unknown"
   \/ WeatherTool.getWeatherCondition code
      = WeatherWorkflow.getWeatherCondition code)
  /\ (WeatherTool.getWeatherCondition code
      <> WeatherWorkflow.getWeatherCondition code
      <-> code ∈ toolOnlyCodes)
  /\ (code ∈ toolOnlyCodes ->
      WeatherWorkflow.getWeatherCondition code = "Unknown")
  /\ WeatherWorkflow.getWeatherCondition code <> EmptyString
  /\ WeatherTool.getWeatherCondition code <> EmptyString
  /\ (code < 0 \/ 99 < code ->
      WeatherWorkflow.getWeatherCondition code = "Unknown"
      /\ WeatherTool.getWeatherCondition code = "Unknown").
Proof.
  assert (code < 0 \/ 99 < code ->
          WeatherWorkflow.getWeatherCondition code = "Unknown"
          /\ WeatherTool.getWeatherCondition code = "Unknown") as Hfar.
  { intros Hout. destruct (conditions_outside code Hout) as [Hcw Hct].
    unfold WeatherWorkflow.getWeatherCondition,
      WeatherTool.getWeatherCondition. now rewrite Hcw, Hct. }
  pose proof (conditionsAgreeAt_all code) as H. unfold conditionsAgreeAt in H.
  revert Hfar H.
  generalize (WeatherWorkflow.getWeatherCondition code).
  generalize (WeatherTool.getWeatherCondition code).
  intros t w Hfar H. cbv zeta in H.
  apply andb_true_iff in H as [H Ht]. apply andb_true_iff in H as [H Hw].
  apply andb_true_iff in H as [Hor Hiff].
  apply Bool.eqb_prop in Hiff.
  assert (w = "Unknown" \/ t = w) as Hext.
  { apply orb_true_iff in Hor as [Hu | He];
      [left | right]; now apply String.eqb_eq. }
  assert (t <> w <-> code ∈ toolOnlyCodes) as Hdiff.
  { rewrite <- (bool_decide_spec (code ∈ toolOnlyCodes)), <- Hiff.
    destruct (String.eqb_spec t w) as [-> | Hne]; simpl; split; intros Hx;
      try congruence; try exact I; try (now destruct Hx). }
  split; [exact Hext |]. split; [exact Hdiff |]. split; [| split; [| split]].
  - intros Hin. apply Hdiff in Hin. destruct Hext as [Hu | He]; congruence.
  - intros Hx. now rewrite Hx in Hw.
  - intros Hx. now rewrite Hx in Ht.
  - exact Hfar.
Qed.

(** ** The clock *)

(** X17. The time of day reaches nothing but the status file: at another
    time the same collaborators give the same completion (the same result
    or the same thrown value), the same directories, and the same content
    in every file other than the status file. *)
Theorem clock_reaches_only_the_status_file (env : Env) (fs : FS) (t : string) :
  (execute (with_now t env) fs).2 = (execute env fs).2
  /\ dirs (execute (with_now t env) fs).1 = dirs (execute env fs).1
  /\ forall p, p <> statusPath (outputDirOf env) ->
               files (execute (with_now t env) fs).1 !! p
               = files (execute env fs).1 !! p.
Proof.
  assert (forall fs1,
            (executeIn (with_now t env) (outputDirOf (with_now t env)) fs1).2
            = (executeIn env (outputDirOf env) fs1).2
            /\ dirs (executeIn (with_now t env)
                       (outputDirOf (with_now t env)) fs1).1
               = dirs (executeIn env (outputDirOf env) fs1).1
            /\ forall p, p <> statusPath (outputDirOf env) ->
                 files (executeIn (with_now t env)
                          (outputDirOf (with_now t env)) fs1).1 !! p
                 = files (executeIn env (outputDirOf env) fs1).1 !! p) as Hin.
  { intros fs1. rewrite !executeIn_cases, loopEnd_with_now.
    generalize (loopEnd env fs1). intros a.
    rewrite outputDirOf_with_now.
    change (writeFileError (with_now t env)) with (writeFileError env).
    destruct (writeFileError env (statusPath (outputDirOf env))).
    - repeat split.
    - split; [reflexivity |]. split; [reflexivity |].
      intros p Hp. cbn [fst files with_files].
      now rewrite !lookup_insert_ne by now apply not_eq_sym. }
  rewrite !execute_cases.
  change (dirExists (with_now t env) fs) with (dirExists env fs).
  change (mkdirError (with_now t env) (outputDirOf (with_now t env)))
    with (mkdirError env (outputDirOf env)).
  destruct (dirExists env fs); [apply Hin |].
  destruct (mkdirError env (outputDirOf env)); [| apply Hin].
  repeat split.
Qed.

(** ** Paths, and a run that fails at the end *)




(** ** The parser on tables in pipe form *)

Lemma trimStart_length (s : string) :
  (String.length (trimStart s) <= String.length s)%nat.
Proof.
  induction s as [| c s IH]; simpl; [lia |].
  destruct (isWhiteSpace c); simpl; lia.
Qed.

Lemma trimEnd_length (s : string) :
  (String.length (trimEnd s) <= String.length s)%nat.
Proof.
  induction s as [| c s IH]; simpl; [lia |].
  destruct (isWhiteSpace c && isEmpty (trimEnd s)); simpl; lia.
Qed.

(** A trimmed, non-empty string starts with a character that is not white
    space, and trimming its end changes nothing. *)
Lemma trimmed_shape (cell : string) :
  trim cell = cell -> cell <> EmptyString ->
  exists c rest, cell = String c rest /\ isWhiteSpace c = false
                 /\ trimEnd cell = cell.
Proof.
  intros Ht Hne. destruct cell as [| c rest]; [congruence |].
  exists c, rest. split; [reflexivity |].
  destruct (isWhiteSpace c) eqn:Hc.
  - exfalso. unfold trim in Ht. simpl in Ht. rewrite Hc in Ht.
    apply (f_equal String.length) in Ht. simpl in Ht.
    pose proof (trimEnd_length (trimStart rest)).
    pose proof (trimStart_length rest). lia.
  - split; [reflexivity |]. unfold trim in Ht. simpl in Ht.
    now rewrite Hc in Ht.
Qed.

Lemma trimEnd_space (s : string) : trimEnd (s +:+ " ") = trimEnd s.
Proof.
  induction s as [| c s IH]; [reflexivity |].
  simpl. now rewrite IH.
Qed.

Lemma trim_padded (cell : string) :
  trim cell = cell -> cell <> EmptyString -> trim (padded cell) = cell.
Proof.
  intros Ht Hne.
  destruct (trimmed_shape cell Ht Hne) as (c & rest & -> & Hc & Hend).
  unfold trim, padded. simpl. rewrite Hc.
  change (String c (rest +:+ " ")) with (String c rest +:+ " ").
  now rewrite trimEnd_space.
Qed.

Lemma split_pipeCells (cells : list string) :
  Forall cleanCell cells ->
  split PIPE (pipeCells cells) = map padded cells ++ [EmptyString].
Proof.
  induction cells as [| cell cells IH]; intros H; [reflexivity |].
  inversion H as [| ? ? (_ & _ & Hpipe & _) Hrest]; subst.
  cbn [pipeCells map]. rewrite split_append, (IH Hrest), split_plain;
    [reflexivity |].
  unfold padded. rewrite !includes_append, Hpipe. reflexivity.
Qed.

Lemma kept_cells (cells : list string) :
  Forall cleanCell cells ->
  filter (fun cell => isEmpty cell = false)
    (map trim (map padded cells ++ [EmptyString]))
  = cells.
Proof.
  induction cells as [| cell cells IH]; intros H; [reflexivity |].
  inversion H as [| ? ? (Hne & Ht & _) Hrest]; subst.
  cbn [map app]. rewrite (trim_padded cell Ht Hne).
  rewrite filter_cons_True by (destruct cell; [congruence | reflexivity]).
  now rewrite (IH Hrest).
Qed.

Lemma includes_all_class (s : string) :
  includes s PIPE = true -> all isSeparatorClass s = false.
Proof.
  induction s as [| c s IH]; simpl; [discriminate |].
  intros H. destruct (Ascii.eqb c PIPE) eqn:Hc.
  - apply Ascii.eqb_eq in Hc. subst c. reflexivity.
  - simpl in H. rewrite (IH H). apply andb_false_r.
Qed.

Lemma parseLine_pipeRow (rows : list (list string)) (cells : list string) :
  cells <> [] -> Forall cleanCell cells ->
  parseLine rows (pipeRow cells) = rows ++ [cells].
Proof.
  intros Hne Hclean. unfold parseLine.
  assert (matchesSeparator (pipeRow cells) = false) as ->.
  { unfold pipeRow, matchesSeparator. rewrite includes_all_class.
    - now rewrite andb_false_r.
    - destruct cells as [| cell cells]; [congruence |].
      cbn [pipeCells]. rewrite includes_append. simpl.
      apply orb_true_r. }
  unfold pipeRow. cbn [startsWith]. rewrite Ascii.eqb_refl.
  change (String PIPE (pipeCells cells))
    with (EmptyString +:+ String PIPE (pipeCells cells)).
  rewrite split_append, (split_pipeCells cells Hclean).
  cbn [split app map]. change (trim EmptyString) with EmptyString.
  rewrite filter_cons_False by (simpl; congruence).
  rewrite (kept_cells cells Hclean).
  destruct cells as [| cell cells]; [congruence | reflexivity].
Qed.

Lemma pipeRow_line (cells : list string) :
  Forall cleanCell cells ->
  includes (pipeRow cells) LF = false
  /\ isEmpty (trim (pipeRow cells)) = false.
Proof.
  intros Hclean. split.
  - unfold pipeRow. simpl.
    induction cells as [| cell cells IH]; [reflexivity |].
    inversion Hclean as [| ? ? (_ & _ & _ & Hlf) Hrest]; subst.
    cbn [pipeCells]. unfold padded.
    rewrite !includes_append, Hlf. simpl. now apply IH.
  - unfold pipeRow, trim. simpl. reflexivity.
Qed.

(** X20. The parser reads back every table written in pipe form: for rows
    that each have a cell and whose cells are clean (not empty, trimmed,
    without pipe or newline), the parse of the text with one line
    [| c1 | c2 | ... |] per row is the list of those rows. With X1 this
    makes the clean tables exactly the values the parser can return. *)
Theorem parseMarkdownTable_of_pipeTable (rows : list (list string)) :
  Forall (fun row => row <> [] /\ Forall cleanCell row) rows ->
  parseMarkdownTable (pipeTable rows) = rows.
Proof.
  intros Hrows. destruct rows as [| row0 rows0]; [reflexivity |].
  set (rows := row0 :: rows0) in *.
  assert (Forall (fun line => includes line LF = false
                              /\ isEmpty (trim line) = false)
            (map pipeRow rows)) as Hlines.
  { apply Forall_forall. intros line Hin.
    apply list_elem_of_fmap in Hin as (row & -> & Hrow).
    rewrite Forall_forall in Hrows. destruct (Hrows row Hrow) as [_ Hc].
    now apply pipeRow_line. }
  unfold parseMarkdownTable, pipeTable, lines_of.
  rewrite split_join;
    [| discriminate | eapply Forall_impl; [exact Hlines |]; now intros l [H _]].
  assert (filter (fun line => isEmpty (trim line) = false) (map pipeRow rows)
          = map pipeRow rows) as ->.
  { clear Hrows. induction (map pipeRow rows) as [| line lines IH];
      [reflexivity |].
    inversion Hlines as [| ? ? [_ Hline] Hrest]; subst.
    rewrite filter_cons_True by exact Hline. now rewrite (IH Hrest). }
  clear Hlines. clearbody rows. clear row0 rows0.
  induction rows as [| row rows IH]; [reflexivity |].
  inversion Hrows as [| ? ? [Hne Hclean] Hrest]; subst.
  cbn [map fold_left]. rewrite parseLines_acc, (IH Hrest).
  now rewrite (parseLine_pipeRow [] row Hne Hclean).
Qed.

Lemma parseMarkdownTable_of_pipeTable_witness :
  Forall (fun row => row <> [] /\ Forall cleanCell row)
    [["rule_id"; "condition"]; ["---"; "---"]; ["R1"; "a, b"]]
  /\ parseMarkdownTable
       (pipeTable [["rule_id"; "condition"]; ["---"; "---"]; ["R1"; "a, b"]])
     = [["rule_id"; "condition"]; ["---"; "---"]; ["R1"; "a, b"]].
Proof.
  assert (Forall (fun row : list string => row <> [] /\ Forall cleanCell row)
            [["rule_id"; "condition"]; ["---"; "---"]; ["R1"; "a, b"]]) as H.
  { repeat constructor; try discriminate. }
  split; [exact H |]. exact (parseMarkdownTable_of_pipeTable _ H).
Defined.
